(** * pkg/compressor: the streaming codec client

    A shallow embedding of [pkg/compressor] (format registry, [NewClient],
    [Compress], [Decompress]) together with the part of [cli/compressor]
    that consumes it ([runAction]: drain the output, then read the error
    channel).  The second half of the file adds the rest of
    [cli/compressor] (arguments, configuration, [Run]) and the helper of
    [internal/testutil].

    The package is glue around library objects: [io.Pipe], [io.Copy],
    go-git's context-aware writer, [compress/gzip], [fmt.Errorf].  Each of
    them is modelled by what the package observes of it; [compress/gzip]
    and the non-ASCII part of [strconv.Quote] are parameters. *)

From Stdlib Require Import List String Ascii Bool Arith Lia.
From Stdlib Require Import Strings.Byte.
From Stdlib Require Import ZArith.
Import ListNotations.

Local Open Scope string_scope.
Local Open Scope list_scope.

(** ** Errors *)

(** A Go [error] value.  [errorString] is what [errors.New] and a
    [fmt.Errorf] without [%w] build; [wrapError] is what [fmt.Errorf] with
    [%w] builds: the formatted message and the wrapped error.  The nil
    error is [None] of [option error]. *)
Inductive error : Type :=
| errorString (s : string)
| wrapError (msg : string) (err : error).

Definition Error (e : error) : string :=
  match e with
  | errorString s => s
  | wrapError msg _ => msg
  end.

Definition Unwrap (e : error) : option error :=
  match e with
  | errorString _ => None
  | wrapError _ err => Some err
  end.

(** [fmt.Errorf(prefix + "%w", err)]. *)
Definition Errorf_w (prefix : string) (err : error) : error :=
  wrapError (prefix ++ Error err) err.

(** [errors.Is] on this representation, by structural comparison. *)
Fixpoint error_eqb (a b : error) : bool :=
  match a, b with
  | errorString s, errorString t => String.eqb s t
  | wrapError m e, wrapError n f => String.eqb m n && error_eqb e f
  | _, _ => false
  end.

Fixpoint Is (e target : error) : bool :=
  error_eqb e target ||
  match e with
  | errorString _ => false
  | wrapError _ err => Is err target
  end.

(** A value or an error: the Go pair [(T, error)]. *)
Inductive result (A : Type) : Type :=
| Ok (a : A)
| Err (err : error).
Arguments Ok {A} a.
Arguments Err {A} err.

(** ** Strings: [strings.Contains] and the [%q] verb *)

Fixpoint Contains (s substr : string) : bool :=
  String.prefix substr s ||
  match s with
  | EmptyString => false
  | String _ rest => Contains rest substr
  end.

Definition dquote : ascii := "034"%char.
Definition backslash : ascii := "092"%char.

Definition lowerhex (n : nat) : ascii :=
  nth n ["0"; "1"; "2"; "3"; "4"; "5"; "6"; "7";
         "8"; "9"; "a"; "b"; "c"; "d"; "e"; "f"]%char "0"%char.

(** [strconv.IsPrint] on an ASCII code. *)
Definition isPrintASCII (n : nat) : bool := ((32 <=? n) && (n <? 127))%nat.

(** What [strconv.Quote] emits for one byte below 0x80. *)
Definition escapeASCII (c : ascii) : string :=
  let n := nat_of_ascii c in
  if ((n =? 34) || (n =? 92))%nat then String backslash (String c EmptyString)
  else if isPrintASCII n then String c EmptyString
  else match n with
       | 7 => String backslash "a"
       | 8 => String backslash "b"
       | 12 => String backslash "f"
       | 10 => String backslash "n"
       | 13 => String backslash "r"
       | 9 => String backslash "t"
       | 11 => String backslash "v"
       | _ => String backslash
                (String "x" (String (lowerhex (n / 16))
                               (String (lowerhex (n mod 16)) EmptyString)))
       end.

(** A byte that [%q] copies as it is. *)
Definition plainByte (c : ascii) : bool :=
  let n := nat_of_ascii c in
  isPrintASCII n && negb (n =? 34)%nat && negb (n =? 92)%nat.

Fixpoint plain (s : string) : bool :=
  match s with
  | EmptyString => true
  | String c rest => plainByte c && plain rest
  end.

(** ** Streams *)

Definition bytes : Type := list byte.

(** An [io.Reader], as the results of its successive [Read] calls: some
    bytes with a nil error, then [io.EOF] or another error. *)
Inductive reader : Type :=
| rEOF
| rFail (err : error)
| rData (p : bytes) (next : reader).

(** The bytes a reader hands out before it ends, read by read, and how it
    ends ([None] for [io.EOF]). *)
Fixpoint chunksOf (r : reader) : list bytes :=
  match r with
  | rEOF | rFail _ => []
  | rData p next => p :: chunksOf next
  end.

Definition nonEmpty (p : bytes) : bool := negb (Nat.eqb (List.length p) 0).

Fixpoint endOf (r : reader) : option error :=
  match r with
  | rEOF => None
  | rFail err => Some err
  | rData _ next => endOf next
  end.

(** The reader that hands out [chunks] one per [Read] and then [io.EOF]
    ([bytes.Buffer], a file, a finished pipe). *)
Fixpoint readerOf (chunks : list bytes) : reader :=
  match chunks with
  | [] => rEOF
  | p :: rest => rData p (readerOf rest)
  end.

(** An [io.ReadCloser] handed to [io.Copy]: its reads, and what [Close]
    returns once they are exhausted. *)
Record ReadCloser : Type := {
  reads : reader;
  closeErr : option error
}.

(** [io.NopCloser]. *)
Definition NopCloser (a : reader) : ReadCloser :=
  {| reads := a; closeErr := None |}.

(** What one call does to the pipe and the error channel it allocates, in
    the order it happens.  [Wrote p]: a [Write] on the pipe's write end that
    the read end took; [ClosedPipe]: [Close] on the write end; [Sent v]: a
    value put into the error channel. *)
Inductive event : Type :=
| Wrote (p : bytes)
| ClosedPipe
| Sent (v : option error).

Definition history : Type := list event.

Definition isClose (e : event) : bool :=
  match e with ClosedPipe => true | _ => false end.

Definition pipeClosed (h : history) : bool := existsb isClose h.

Fixpoint pipeBytes (h : history) : bytes :=
  match h with
  | [] => []
  | Wrote p :: rest => p ++ pipeBytes rest
  | _ :: rest => pipeBytes rest
  end.

Fixpoint chanBuf (h : history) : list (option error) :=
  match h with
  | [] => []
  | Sent v :: rest => v :: chanBuf rest
  | _ :: rest => chanBuf rest
  end.

(** A [context.Context], as a write on the pipe's write end meets it,
    moments being counted in events of the call.  The write end starts the
    write on the pipe in a goroutine of its own and selects between its
    result and [ctx.Done()].  [None]: the write of that moment runs to its
    end and its result is returned (the context is not done, or the result
    wins the select).  [Some (err, taken)]: the context is done and the
    write returns [ctx.Err()], which is [err]; the write on the pipe,
    abandoned, goes on, and the read end takes [taken] bytes of it. *)
Definition Context : Type := nat -> option (error * nat).

(** [context.Background()]: never cancelled, so every write runs to its end. *)
Definition Background : Context := fun _ => None.

Definition ErrClosedPipe : error := errorString "io: read/write on closed pipe".
Definition ErrShortWrite : error := errorString "short write".
Definition errInvalidWrite : error := errorString "invalid write result".

(** [Write] on [ioutil.NewContextWriteCloser(ctx, pipeWriter)], the read
    end being drained.  A write that runs to its end fails with
    [io.ErrClosedPipe] after [Close] and hands over all of [p] otherwise.
    A write that the done context cuts short returns [(0, ctx.Err())]; what
    the read end takes of the abandoned write on the pipe, nothing once the
    pipe is closed, is still an event of the call. *)
Definition ctxWrite (ctx : Context) (p : bytes) (h : history)
  : (nat * option error) * history :=
  match ctx (List.length h) with
  | Some (err, taken) =>
      ((0, Some err),
       if pipeClosed h || negb (nonEmpty (firstn taken p)) then h
       else h ++ [Wrote (firstn taken p)])
  | None =>
      if pipeClosed h then ((0, Some ErrClosedPipe), h)
      else ((List.length p, None), h ++ [Wrote p])
  end.

(** [Close] on the same object: closing the pipe always returns nil. *)
Definition ctxClose (h : history) : option error * history :=
  (None, h ++ [ClosedPipe]).

(** Code that holds the pipe's write end and nothing else of the call: it
    can write to it, close it, and look at what these return. *)
Inductive sinkM (A : Type) : Type :=
| Ret (a : A)
| SinkWrite (p : bytes) (k : nat * option error -> sinkM A)
| SinkClose (k : option error -> sinkM A).
Arguments Ret {A} a.
Arguments SinkWrite {A} p k.
Arguments SinkClose {A} k.

Fixpoint bind {A B : Type} (m : sinkM A) (f : A -> sinkM B) : sinkM B :=
  match m with
  | Ret a => f a
  | SinkWrite p k => SinkWrite p (fun r => bind (k r) f)
  | SinkClose k => SinkClose (fun r => bind (k r) f)
  end.

Declare Scope sink_scope.
Delimit Scope sink_scope with sink.
Notation "x <- m ;; k" := (bind m (fun x => k))
  (at level 61, m at next level, right associativity) : sink_scope.

Fixpoint runSink {A : Type} (ctx : Context) (m : sinkM A) (h : history)
  : A * history :=
  match m with
  | Ret a => (a, h)
  | SinkWrite p k => let '(r, h1) := ctxWrite ctx p h in runSink ctx (k r) h1
  | SinkClose k => let '(r, h1) := ctxClose h in runSink ctx (k r) h1
  end.

(** An [io.WriteCloser] built over the pipe's write end: the value a
    [func(io.WriteCloser) io.WriteCloser] returns.  It has a state of its
    own and reaches the pipe through [Write] and [Close] only; making it
    touches nothing ([gzip.NewWriter] writes its header with the first
    [Write]). *)
Record WriteCloser : Type := {
  wstate : Type;
  winit : wstate;
  Write : wstate -> bytes -> sinkM (wstate * (nat * option error));
  Close : wstate -> sinkM (wstate * option error)
}.

(** [func(a io.WriteCloser) io.WriteCloser { return a }]: the write end
    itself. *)
Definition sameWriter : WriteCloser := {|
  wstate := unit;
  winit := tt;
  Write := fun _ p => SinkWrite p (fun r => Ret (tt, r));
  Close := fun _ => SinkClose (fun r => Ret (tt, r))
|}.

(** [io.Copy(dst, src)]: read until [io.EOF] or an error, writing every
    non-empty read to [dst]; a write error, an invalid count or a short
    write stops the copy. *)
Fixpoint ioCopy (dst : WriteCloser) (s : wstate dst) (src : reader)
  : sinkM (wstate dst * option error) :=
  match src with
  | rEOF => Ret (s, None)
  | rFail err => Ret (s, Some err)
  | rData p next =>
      match p with
      | [] => ioCopy dst s next
      | _ :: _ =>
          bind (Write dst s p) (fun r =>
            let '(s1, (nw, ew)) := r in
            let ew := if (List.length p <? nw)%nat
                      then match ew with None => Some errInvalidWrite | _ => ew end
                      else ew in
            let nw := if (List.length p <? nw)%nat then 0 else nw in
            match ew with
            | Some err => Ret (s1, Some err)
            | None => if (nw =? List.length p)%nat then ioCopy dst s1 next
                      else Ret (s1, Some ErrShortWrite)
            end)
      end
  end.

(** ** The error channel and the caller *)

(** [make(chan error, 1)]. *)
Definition errChCap : nat := 1.

(** [errCh <- v]: [None] when the buffer is full, where the sender would
    wait for a receiver. *)
Definition chanSend (v : option error) (h : history) : option history :=
  if (List.length (chanBuf h) <? errChCap)%nat then Some (h ++ [Sent v]) else None.

(** [<-errCh]: [None] while nothing has been sent, where the receiver
    waits. *)
Definition chanRecv (h : history) : option (option error) := hd_error (chanBuf h).

(** Reading the pipe's read end until [io.EOF], which only a closed write
    end produces: [None] when the reader is left waiting. *)
Definition drain (h : history) : option bytes :=
  if pipeClosed h then Some (pipeBytes h) else None.

(** What a call leaves behind: the events before it returned and the task
    it started with [go], if any.  A task maps the history it finds to the
    one it leaves, [None] when it is stuck on a full channel. *)
Record started : Type := {
  before : history;
  spawned : option (history -> option history)
}.

Inductive callResult : Type :=
| Panics
| Hangs
| Returns (s : started).

(** The history once the call has returned and its task has ended. *)
Definition settle (r : callResult) : option history :=
  match r with
  | Returns s =>
      match spawned s with
      | None => Some (before s)
      | Some task => task (before s)
      end
  | _ => None
  end.

(** [runAction] in [cli/compressor], after the task has ended and under a
    context that is never cancelled: copy the output to the end
    ([io.Copy(c.Output, output)]), then read the error channel ([<-errCh]).
    (A cancelled context releases the pending read with the context's
    error instead.) *)
Inductive callerResult : Type :=
| Deadlock
| Finished (out : bytes) (v : option error).

Definition drainThenReceive (h : history) : callerResult :=
  match drain h with
  | None => Deadlock
  | Some out =>
      match chanRecv h with
      | None => Deadlock
      | Some v => Finished out v
      end
  end.

(** Every [Sent] of the history comes after a [ClosedPipe]; [closed] says
    whether one has been seen already. *)
Fixpoint closedBeforeSent (closed : bool) (h : history) : bool :=
  match h with
  | [] => true
  | Wrote _ :: rest => closedBeforeSent closed rest
  | ClosedPipe :: rest => closedBeforeSent true rest
  | Sent _ :: rest => closed && closedBeforeSent closed rest
  end.

(** ** The package *)

Definition Format : Type := string.
Definition FormatGzip : Format := "gzip".
Definition FormatNoop : Format := "noop".
Definition DefaultFormat : Format := FormatGzip.

Definition AvailableFormats : list string := [FormatGzip; FormatNoop].

Record Config : Type := {
  format : Format;
  Compressor : option WriteCloser;
  Decompressor : option (reader -> result ReadCloser)
}.

Record client : Type := {
  compressor : option WriteCloser;
  decompressor : option (reader -> result ReadCloser)
}.

Definition validate (c : Config) : option error :=
  match Decompressor c with
  | None => Some (errorString "decompressor must be configured")
  | Some _ =>
      match Compressor c with
      | None => Some (errorString "compressor must be configured")
      | Some _ => None
      end
  end.

Definition noopConfig : Config := {|
  format := "";
  Compressor := Some sameWriter;
  Decompressor := Some (fun a => Ok (NopCloser a))
|}.

(** The function literal of [Compress]'s task: copy, close the compressor,
    close the pipe. *)
Definition compressFunc (w : WriteCloser) (input : reader) : sinkM (option error) :=
  (copied <- ioCopy w (winit w) input ;;
   match snd copied with
   | Some err => Ret (Some (Errorf_w "compressing data: " err))
   | None =>
       closed <- Close w (fst copied) ;;
       match snd closed with
       | Some err => Ret (Some (Errorf_w "closing compressor: " err))
       | None => SinkClose (fun _ => Ret None)
       end
   end)%sink.

(** The function literal of [Decompress]'s task: copy; then, with the close
    of the pipe deferred, close the decompressor. *)
Definition decompressFunc (d : ReadCloser) : sinkM (option error) :=
  (copied <- ioCopy sameWriter tt (reads d) ;;
   match snd copied with
   | Some err => Ret (Some (Errorf_w "decompressing data: " err))
   | None =>
       let ret := match closeErr d with
                  | Some err => Some (Errorf_w "closing decompressor: " err)
                  | None => None
                  end in
       SinkClose (fun _ => Ret ret)
   end)%sink.

(** [go func() { errCh <- f() }()]. *)
Definition goSend (ctx : Context) (f : sinkM (option error))
  : history -> option history :=
  fun h => let '(v, h1) := runSink ctx f h in chanSend v h1.

Definition Compress (c : client) (ctx : Context) (input : reader) : callResult :=
  match compressor c with
  | None => Panics
  | Some w =>
      Returns {| before := []; spawned := Some (goSend ctx (compressFunc w input)) |}
  end.

Definition Decompress (c : client) (ctx : Context) (input : reader) : callResult :=
  match decompressor c with
  | None => Panics
  | Some newDecompressor =>
      match newDecompressor input with
      | Err err =>
          match chanSend (Some (Errorf_w "creating decompressor: " err)) [] with
          | None => Hangs
          | Some h => Returns {| before := snd (ctxClose h); spawned := None |}
          end
      | Ok d =>
          Returns {| before := []; spawned := Some (goSend ctx (decompressFunc d)) |}
      end
  end.

(** The value the caller finds in the error channel once the call has
    settled. *)
Definition deposited (r : callResult) : option (option error) :=
  match settle r with
  | Some h => chanRecv h
  | None => None
  end.

(** ** A caller that stops reading the output *)

(** The pipe has no buffer: a write on it returns when the read end has
    taken its bytes.  [runSink] is the run of code whose output is read for
    as long as it comes.  [runSinkReading n] is the run of the same code
    when the output is read while the code makes its first [n] writes and
    no more after that: of a later write the read end takes nothing, so the
    write returns only when the context cuts it short or when the pipe has
    been closed, and waits for ever otherwise, [None]. *)
Fixpoint runSinkReading {A : Type} (ctx : Context) (n : nat) (m : sinkM A) (h : history)
  : option A * history :=
  match m with
  | Ret a => (Some a, h)
  | SinkWrite p k =>
      match n with
      | S n' => let '(r, h1) := ctxWrite ctx p h in runSinkReading ctx n' (k r) h1
      | 0 =>
          match ctx (List.length h) with
          | Some (err, _) => runSinkReading ctx 0 (k (0, Some err)) h
          | None =>
              if pipeClosed h
              then runSinkReading ctx 0 (k (0, Some ErrClosedPipe)) h
              else (None, h)
          end
      end
  | SinkClose k => let '(r, h1) := ctxClose h in runSinkReading ctx n (k r) h1
  end.

(** What the task of a call comes to: it ends, or it is left waiting for
    ever; [h] is the history it has made. *)
Inductive taskEnd : Type :=
| Ended (h : history)
| Waiting (h : history).

(** [go func() { errCh <- f() }()] with such a reader of the output. *)
Definition goSendReading (ctx : Context) (n : nat) (f : sinkM (option error))
  : history -> taskEnd :=
  fun h =>
    match runSinkReading ctx n f h with
    | (None, h1) => Waiting h1
    | (Some v, h1) =>
        match chanSend v h1 with
        | Some h2 => Ended h2
        | None => Waiting h1
        end
    end.

(** [Compress] and [Decompress] with such a reader of the output: what the
    call and its task come to, [None] when the call panics. *)
Definition CompressReading (n : nat) (c : client) (ctx : Context) (input : reader)
  : option taskEnd :=
  match compressor c with
  | None => None
  | Some w => Some (goSendReading ctx n (compressFunc w input) [])
  end.

Definition DecompressReading (n : nat) (c : client) (ctx : Context) (input : reader)
  : option taskEnd :=
  match decompressor c with
  | None => None
  | Some newDecompressor =>
      match newDecompressor input with
      | Err err =>
          match chanSend (Some (Errorf_w "creating decompressor: " err)) [] with
          | None => Some (Waiting [])
          | Some h => Some (Ended (snd (ctxClose h)))
          end
      | Ok d => Some (goSendReading ctx n (decompressFunc d) [])
      end
  end.

(** The error a task reports, in the spec's words: the error of the copy if
    it failed; otherwise the error of the close if that failed; otherwise
    none.  Each is wrapped with the prefix of its step. *)
Definition firstError (copyPrefix : string) (copy : option error)
    (closePrefix : string) (close : option error) : option error :=
  match copy with
  | Some err => Some (Errorf_w copyPrefix err)
  | None =>
      match close with
      | Some err => Some (Errorf_w closePrefix err)
      | None => None
      end
  end.

(** What [io.Copy(compressor, input)] returns in [Compress]'s task, and
    what [compressor.Close()] returns when it is called after it. *)
Definition compressCopyErr (ctx : Context) (w : WriteCloser) (input : reader)
  : option error :=
  snd (fst (runSink ctx (ioCopy w (winit w) input) [])).

Definition compressCloseErr (ctx : Context) (w : WriteCloser) (input : reader)
  : option error :=
  let copied := runSink ctx (ioCopy w (winit w) input) [] in
  snd (fst (runSink ctx (Close w (fst (fst copied))) (snd copied))).

(** What [io.Copy(ctxDecompressedWriter, decompressor)] returns in
    [Decompress]'s task. *)
Definition decompressCopyErr (ctx : Context) (d : ReadCloser) : option error :=
  snd (fst (runSink ctx (ioCopy sameWriter tt (reads d)) [])).

(** ** Values used to run the definitions *)

(** The compressor of the package's [closing_compressor_fails] test,
    without the call to the write end's [Close] the test adds: writes go
    through, [Close] fails. *)
Definition failingCloser : WriteCloser := {|
  wstate := unit;
  winit := tt;
  Write := fun _ p => SinkWrite p (fun r => Ret (tt, r));
  Close := fun _ => Ret (tt, Some (errorString "test error"))
|}.


(** The reader of the package's [bad_input_is_given] tests. *)
Definition badReader : reader := rFail (errorString "reading error").

(** The test data of the package's tests, the bytes of [foo]. *)
Definition testData : bytes := [x66; x6f; x6f].

(** A [gzip.NewReader] for inputs that are no gzip stream. *)
Definition ErrHeader : error := errorString "gzip: invalid header".
Definition rejectingReader : reader -> result ReadCloser := fun _ => Err ErrHeader.

(** A client with the pass-through compressor and that decompressor. *)
Definition rejectingClient : client :=
  {| compressor := Some sameWriter; decompressor := Some rejectingReader |}.

(** A format with a double quote in it: a, double quote, b. *)
Definition quotedFormat : Format := String "a" (String dquote "b").

(** A rendering of non-ASCII strings for [quote] where none occurs. *)
Definition noNonASCII : string -> string := fun s => s.

Definition onlyFormat (f : Format) : Config :=
  {| format := f; Compressor := None; Decompressor := None |}.

(** The client [NewClient] builds for [FormatNoop]. *)
Definition noopClient : client :=
  {| compressor := Compressor noopConfig; decompressor := Decompressor noopConfig |}.

(** ** More of the package's histories *)

(** No [Wrote] comes after a [ClosedPipe]. *)
Definition isWrote (e : event) : bool :=
  match e with Wrote _ => true | _ => false end.

Fixpoint noWriteAfterClose (h : history) : bool :=
  match h with
  | [] => true
  | ClosedPipe :: rest => forallb (fun e => negb (isWrote e)) rest
  | _ :: rest => noWriteAfterClose rest
  end.

(** A context that is done before the call is made and cuts every write
    short, the read end taking nothing of it. *)
Definition cancelled (err : error) : Context := fun _ => Some (err, 0).

(** The reader hands out at least one byte before it ends. *)
Definition hasData (r : reader) : bool := existsb nonEmpty (chunksOf r).

Definition isOk {A : Type} (r : result A) : bool :=
  match r with Ok _ => true | Err _ => false end.

(** The formats [NewClient] is said to accept when no override is given:
    the empty one and those [AvailableFormats] lists. *)
Definition listedFormat (f : Format) : bool :=
  String.eqb f "" || existsb (String.eqb f) AvailableFormats.

(** ** cli/compressor: arguments *)

Definition ActionCompress : string := "compress".
Definition ActionDecompress : string := "decompress".
Definition FormatEnv : string := "COMPRESSOR_FORMAT".
Definition DefaultConfigPath : string := "config.yaml".

(** [strings.Split(s, sep)] for a separator of one byte. *)
Fixpoint Split (s : string) (sep : ascii) : list string :=
  match s with
  | EmptyString => [EmptyString]
  | String c rest =>
      if Ascii.eqb c sep then EmptyString :: Split rest sep
      else match Split rest sep with
           | seg :: segs => String c seg :: segs
           | [] => [String c EmptyString]
           end
  end.

(** [parseStringArg(argument, flag, destination)]: [Some v] when it
    returns true having stored [v], [None] when it returns false.  The
    index [1] of the split is in range whenever the prefix test passes
    ([Split_after_prefix] below), so the default of [nth] is never used. *)
Definition parseStringArg (argument flag : string) : option string :=
  let flagFull := ("--" ++ flag)%string in
  if negb (String.prefix (flagFull ++ "=") argument) then None
  else Some (nth 1 (Split argument "="%char) EmptyString).

(** The keys of the map [parseValueArgs] ranges over, and the orders in
    which a [range] can visit them. *)
Inductive valueFlag : Type := flagFormat | flagConfig | flagInput.

Definition flagName (f : valueFlag) : string :=
  match f with
  | flagFormat => "format"
  | flagConfig => "config"
  | flagInput => "input"
  end.

Inductive mapOrder : Type := FCI | FIC | CFI | CIF | IFC | ICF.

Definition rangeOver (o : mapOrder) : list valueFlag :=
  match o with
  | FCI => [flagFormat; flagConfig; flagInput]
  | FIC => [flagFormat; flagInput; flagConfig]
  | CFI => [flagConfig; flagFormat; flagInput]
  | CIF => [flagConfig; flagInput; flagFormat]
  | IFC => [flagInput; flagFormat; flagConfig]
  | ICF => [flagInput; flagConfig; flagFormat]
  end.

(** The byte [c] does not occur in [s]. *)
Fixpoint without (c : ascii) (s : string) : bool :=
  match s with
  | EmptyString => true
  | String a rest => negb (Ascii.eqb a c) && without c rest
  end.

(** One of the three value flags matches the argument. *)
Definition isValueArg (arg : string) : bool :=
  existsb (fun f => match parseStringArg arg (flagName f) with
                    | Some _ => true
                    | None => false
                    end)
          [flagFormat; flagConfig; flagInput].

(** The argument names an action. *)
Definition isAction (arg : string) : bool :=
  String.eqb arg ActionCompress || String.eqb arg ActionDecompress.

(** Arguments [parseArgs] goes through without an error and without
    stopping: value flags and at most one action, [seen] telling whether an
    action came before. *)
Fixpoint okArgs (seen : bool) (l : list string) : bool :=
  match l with
  | [] => true
  | arg :: rest =>
      if isValueArg arg then okArgs seen rest
      else if isAction arg then negb seen && okArgs true rest
      else false
  end.

(** An [io.Writer] given to the CLI: what its n-th [Write] returns. *)
Definition Writer : Type := nat -> option error.

(** [bytes.Buffer], [io.Discard]: every write succeeds. *)
Definition accepting : Writer := fun _ => None.

(** What has been written: a line by [fmt.Fprintln], bytes by [io.Copy]. *)
Inductive written : Type :=
| Line (s : string)
| Raw (p : bytes).

(** The two outputs: the writes made so far and those that succeeded.
    ([Output] and [ErrorOutput] are taken to be distinct objects.) *)
Record Console : Type := {
  outCalls : nat;
  outLog : list written;
  errCalls : nat;
  errLog : list written
}.

Definition emptyConsole : Console :=
  {| outCalls := 0; outLog := []; errCalls := 0; errLog := [] |}.

Definition writeOut (w : Writer) (x : written) (con : Console)
  : option error * Console :=
  match w (outCalls con) with
  | Some err =>
      (Some err, {| outCalls := S (outCalls con); outLog := outLog con;
                    errCalls := errCalls con; errLog := errLog con |})
  | None =>
      (None, {| outCalls := S (outCalls con); outLog := outLog con ++ [x];
                errCalls := errCalls con; errLog := errLog con |})
  end.

Definition writeErr (w : Writer) (x : written) (con : Console)
  : option error * Console :=
  match w (errCalls con) with
  | Some err =>
      (Some err, {| outCalls := outCalls con; outLog := outLog con;
                    errCalls := S (errCalls con); errLog := errLog con |})
  | None =>
      (None, {| outCalls := outCalls con; outLog := outLog con;
                errCalls := S (errCalls con); errLog := errLog con ++ [x] |})
  end.

Record Cli : Type := {
  Args : list string;
  Output : option Writer;
  ErrorOutput : option Writer;
  Input : option reader;
  action : string;
  cliFormat : string;
  configPath : string;
  inputPath : string
}.

(** A [Cli] literal as a caller writes it: the unexported fields empty. *)
Definition newCli (args : list string) (output errorOutput : option Writer)
    (input : option reader) : Cli :=
  {| Args := args; Output := output; ErrorOutput := errorOutput; Input := input;
     action := ""; cliFormat := ""; configPath := ""; inputPath := "" |}.

Definition setAction (v : string) (c : Cli) : Cli :=
  {| Args := Args c; Output := Output c; ErrorOutput := ErrorOutput c;
     Input := Input c; action := v; cliFormat := cliFormat c;
     configPath := configPath c; inputPath := inputPath c |}.

Definition setFormat (v : string) (c : Cli) : Cli :=
  {| Args := Args c; Output := Output c; ErrorOutput := ErrorOutput c;
     Input := Input c; action := action c; cliFormat := v;
     configPath := configPath c; inputPath := inputPath c |}.

Definition setConfigPath (v : string) (c : Cli) : Cli :=
  {| Args := Args c; Output := Output c; ErrorOutput := ErrorOutput c;
     Input := Input c; action := action c; cliFormat := cliFormat c;
     configPath := v; inputPath := inputPath c |}.

Definition setInputPath (v : string) (c : Cli) : Cli :=
  {| Args := Args c; Output := Output c; ErrorOutput := ErrorOutput c;
     Input := Input c; action := action c; cliFormat := cliFormat c;
     configPath := configPath c; inputPath := v |}.

(** The pointer the map holds for a key. *)
Definition setTarget (f : valueFlag) (v : string) (c : Cli) : Cli :=
  match f with
  | flagFormat => setFormat v c
  | flagConfig => setConfigPath v c
  | flagInput => setInputPath v c
  end.

(** The loop of [parseValueArgs] over the keys in the order of the range. *)
Fixpoint parseFirst (flags : list valueFlag) (arg : string) (c : Cli) : option Cli :=
  match flags with
  | [] => None
  | f :: rest =>
      match parseStringArg arg (flagName f) with
      | Some v => Some (setTarget f v c)
      | None => parseFirst rest arg c
      end
  end.

(** [parseValueArgs]: [Some c'] when it returns true, [c'] being the
    receiver afterwards. *)
Definition parseValueArgs (o : mapOrder) (arg : string) (c : Cli) : option Cli :=
  parseFirst (rangeOver o) arg c.

Definition Cli_validate (c : Cli) : option error :=
  match Output c with
  | None => Some (errorString "no output defined")
  | Some _ =>
      match ErrorOutput c with
      | None => Some (errorString "no error output defined")
      | Some _ =>
          match Args c with
          | [] => Some (errorString "at least one argument must be provided")
          | _ :: _ => None
          end
      end
  end.

(** [usage()], [args0] being [os.Args[0]]. *)
Definition usage (args0 : string) : string :=
  ("Usage:
  " ++ args0 ++ " [command]

Available Commands:
  compress   Compress data from standard input
  decompress Decompress data from standard input

Flags:
  --help   Help for " ++ args0 ++ ".
  --format Specified compression format. Valid values are: "
     ++ String.concat ", " AvailableFormats ++ ". Default is " ++ DefaultFormat ++ ".
  --config Path to optional configuration file. Default is "
     ++ DefaultConfigPath ++ ".
  --input  Path to input file which should processed.")%string.

(** How a function of the CLI ends: it returns its error, it panics, or it
    waits for ever. *)
Inductive outcome : Type :=
| Returned (err : option error)
| Panicked
| Waits.

Definition isPanicked (o : outcome) : bool :=
  match o with Panicked => true | _ => false end.

(** The verb [%v] on a slice of strings. *)
Definition fmtStrings (l : list string) : string :=
  ("[" ++ String.concat " " l ++ "]")%string.

(** The CLI's [Config], decoded from the configuration file. *)
Record FileConfig : Type := { fileFormat : string }.

(** [os.ReadFile]: the content, an error for which [os.IsNotExist] holds,
    or another error. *)
Inductive fileRead : Type :=
| fileData (p : bytes)
| fileNotExist
| fileError (err : error).

(** What the CLI reaches outside itself: [os.Getenv], [os.ReadFile],
    [os.Open], [os.Args[0]], [yaml.Unmarshal] into an empty [Config], and
    the order in which the n-th [range] of a run visits the map of flags. *)
Record System : Type := {
  Getenv : string -> string;
  ReadFile : string -> fileRead;
  Open : string -> result reader;
  Args0 : string;
  Unmarshal : bytes -> result FileConfig;
  rangeOrder : nat -> mapOrder
}.

(** The same system with another order of ranging over the map. *)
Definition withRangeOrder (o : nat -> mapOrder) (sys : System) : System :=
  {| Getenv := Getenv sys; ReadFile := ReadFile sys; Open := Open sys;
     Args0 := Args0 sys; Unmarshal := Unmarshal sys; rangeOrder := o |}.

(** How [io.Copy(c.Output, output)] ends. *)
Inductive copyResult : Type :=
| copyDone
| copyFailed (err : error)
| copyWaits
| copyPanics.

(** The size of the buffer [io.Copy] reads with when the source has no
    [WriteTo] and the destination no [ReadFrom]. *)
Definition copyBufferSize : nat := 32 * 1024.

(** What reads into a buffer of [size] bytes make of one write on the pipe:
    pieces of [size] bytes and a shorter last one, the writer waiting until
    the last has been taken.  [fuel] bounds the number of pieces. *)
Fixpoint piecesOf (fuel size : nat) (p : bytes) : list bytes :=
  match fuel with
  | 0 => []
  | S fuel' =>
      match p with
      | [] => []
      | _ :: _ => firstn size p :: piecesOf fuel' size (skipn size p)
      end
  end.

(** The writes of [io.Copy] on [Output], one for each piece read; a write
    that fails ends the copy. *)
Fixpoint writePieces (w : Writer) (l : list bytes) (con : Console)
  : option error * Console :=
  match l with
  | [] => (None, con)
  | q :: rest =>
      match writeOut w (Raw q) con with
      | (Some err, con1) => (Some err, con1)
      | (None, con1) => writePieces w rest con1
      end
  end.

(** [io.Copy(c.Output, output)] over the events of the call, [i] being the
    moment of the next one.  The read end is
    [ioutil.NewContextReader(ctx, pipeReader)]: a read that is pending
    when the context is done returns the context's error, what the
    abandoned read on the pipe goes on to take being lost; a write on the
    pipe is read in pieces of [copyBufferSize] bytes at most, each written
    to [Output] at once; a closed pipe ends the copy; when the task has
    ended without closing, the read stays pending.  Bytes for a nil
    [Output] panic.  (An [Output] with a [ReadFrom] of its own makes these
    reads itself, with buffers of its own sizes: the bytes that reach it
    are the same, the pieces they come in are its own.) *)
Fixpoint copyOut (ctx : Context) (output : option Writer) (h : history) (i : nat)
    (con : Console) : copyResult * Console :=
  match ctx i with
  | Some (err, _) => (copyFailed err, con)
  | None =>
      match h with
      | [] => (copyWaits, con)
      | Wrote p :: rest =>
          if nonEmpty p
          then match output with
               | None => (copyPanics, con)
               | Some w =>
                   match writePieces w (piecesOf (List.length p) copyBufferSize p) con with
                   | (Some err, con1) => (copyFailed err, con1)
                   | (None, con1) => copyOut ctx output rest (S i) con1
                   end
               end
          else copyOut ctx output rest (S i) con
      | ClosedPipe :: _ => (copyDone, con)
      | Sent _ :: rest => copyOut ctx output rest (S i) con
      end
  end.

(** ** internal/testutil *)

(** A [time.Time] and a [time.Duration], in nanoseconds (a time: since the
    zero time). *)
Definition timeoutGracePeriod : Z := (10 * 1000000000)%Z.

(** [t.Truncate(d)]: [t] rounded down to a multiple of [d] since the zero
    time; [t] itself when [d] is not positive. *)
Definition Truncate (t d : Z) : Z :=
  if (d <=? 0)%Z then t else (t - t mod d)%Z.

(** The contexts the helper makes: [context.WithCancel] and
    [context.WithDeadline] of the background context. *)
Inductive testContext : Type :=
| WithCancel
| WithDeadline (d : Z).

Definition contextDeadline (c : testContext) : option Z :=
  match c with
  | WithCancel => None
  | WithDeadline d => Some d
  end.

(** What [ContextWithDeadline] has done to its [Testing] when it returns:
    whether [Helper] was called, the contexts whose cancel functions were
    given to [Cleanup], and the context returned.  [deadline] is what
    [t.Deadline()] returns, [None] when its second result is false. *)
Record helped : Type := {
  helperCalled : bool;
  cleanups : list testContext;
  returned : testContext
}.

Definition ContextWithDeadline (deadline : option Z) : helped :=
  let ctx := match deadline with
             | Some d => WithDeadline (Truncate d timeoutGracePeriod)
             | None => WithCancel
             end in
  {| helperCalled := true; cleanups := [ctx]; returned := ctx |}.

(** ** The registry *)

Section Package.

(** [gzip.NewWriter] and [gzip.NewReader] of [compress/gzip]. *)
Variable gzipNewWriter : WriteCloser.
Variable gzipNewReader : reader -> result ReadCloser.

(** What [strconv.Quote] emits, between the quotes, for a string that
    starts with a byte of 0x80 or more: UTF-8 decoding and the tables of
    [unicode.IsPrint] decide it. *)
Variable quoteNonASCII : string -> string.

Fixpoint quoteBody (s : string) : string :=
  match s with
  | EmptyString => EmptyString
  | String c rest =>
      if (nat_of_ascii c <? 128)%nat then escapeASCII c ++ quoteBody rest
      else quoteNonASCII s
  end.

(** The verb [%q] on a string. *)
Definition quote (s : string) : string :=
  String dquote (quoteBody s ++ String dquote EmptyString).

Definition gzipConfig : Config := {|
  format := "";
  Compressor := Some gzipNewWriter;
  Decompressor := Some (fun a =>
    match gzipNewReader a with
    | Err err => Err (Errorf_w "creating decompressor: " err)
    | Ok rc => Ok rc
    end)
|}.

Definition NewClient (configs : list Config) : result client :=
  if (1 <? List.length configs)%nat
  then Err (errorString "only one config can be passed")
  else
    let config := match configs with
                  | [c] => c
                  | _ => gzipConfig
                  end in
    let resolved :=
      match Decompressor config, Compressor config with
      | None, None =>
          if String.eqb (format config) FormatGzip || String.eqb (format config) ""
          then Ok gzipConfig
          else if String.eqb (format config) FormatNoop
          then Ok noopConfig
          else Err (errorString
                      ("unknown compression format " ++ quote (format config)))
      | _, _ => Ok config
      end in
    match resolved with
    | Err err => Err err
    | Ok config =>
        match validate config with
        | Some err => Err (Errorf_w "validating configuration: " err)
        | None =>
            Ok {| compressor := Compressor config;
                  decompressor := Decompressor config |}
        end
    end.

(** *** cli/compressor: running *)

(** [fmt.Fprintln(w, s)] on one of the two outputs; the error of the write
    is dropped, a nil writer panics. *)
Definition printOut (c : Cli) (s : string) (con : Console) : option Console :=
  match Output c with
  | None => None
  | Some w => Some (snd (writeOut w (Line s) con))
  end.

Definition printErr (c : Cli) (s : string) (con : Console) : option Console :=
  match ErrorOutput c with
  | None => None
  | Some w => Some (snd (writeErr w (Line s) con))
  end.

(** The loop of [parseArgs] over [c.Args[1:]], [i] counting the calls of
    [parseValueArgs]. *)
Fixpoint parseLoop (sys : System) (all : list string) (i : nat)
    (args : list string) (c : Cli) (con : Console) : outcome * Cli * Console :=
  match args with
  | [] => (Returned None, c, con)
  | arg :: rest =>
      if String.eqb arg "--help" then (Returned None, setAction "help" c, con)
      else if String.eqb arg ActionCompress || String.eqb arg ActionDecompress
      then
        if negb (String.eqb (action c) "")
        then (Returned (Some (errorString "action already specified")), c, con)
        else parseLoop sys all i rest (setAction arg c) con
      else
        match parseValueArgs (rangeOrder sys i) arg c with
        | Some c1 => parseLoop sys all (S i) rest c1 con
        | None =>
            match printErr c (usage (Args0 sys)) con with
            | None => (Panicked, c, con)
            | Some con1 =>
                (Returned (Some (errorString
                   ("unknown argument " ++ quote arg ++ ": " ++ fmtStrings all))),
                 c, con1)
            end
        end
  end.

(** [parseArgs]; slicing an empty [Args] panics. *)
Definition parseArgs (sys : System) (c : Cli) (con : Console)
  : outcome * Cli * Console :=
  match Args c with
  | [] => (Panicked, c, con)
  | _ :: rest => parseLoop sys (Args c) 0 rest c con
  end.

Definition readConfig (sys : System) (c : Cli) : option error * Cli :=
  match ReadFile sys (configPath c) with
  | fileError err =>
      (Some (Errorf_w ("reading configuration file " ++ quote (configPath c) ++ ": ")
               err), c)
  | read =>
      let configRaw := match read with fileData p => p | _ => [] end in
      match Unmarshal sys configRaw with
      | Err err =>
          (Some (Errorf_w ("decoding config from file " ++ quote (configPath c) ++ ": ")
                   err), c)
      | Ok config =>
          if String.eqb (cliFormat c) ""
          then (None, setFormat (fileFormat config) c)
          else (None, c)
      end
  end.

Definition selectUserInput (sys : System) (c : Cli) (userInput : option reader)
  : result reader :=
  match String.eqb (inputPath c) "", userInput with
  | true, None => Err (errorString "either input or input path must be defined")
  | true, Some input => Ok input
  | false, _ =>
      match Open sys (inputPath c) with
      | Err err =>
          Err (Errorf_w ("opening input file " ++ quote (inputPath c) ++ ": ") err)
      | Ok input => Ok input
      end
  end.

(** [runAction].  The history of the call is the one its task leaves with
    the output read as fast as it is written; the copy to [Output] sees it
    event by event. *)
Definition runAction (sys : System) (ctx : Context) (c : Cli) (con : Console)
  : outcome * Cli * Console :=
  match readConfig sys c with
  | (Some err, c1) => (Returned (Some (Errorf_w "reading configuration: " err)), c1, con)
  | (None, c1) =>
      match selectUserInput sys c1 (Input c1) with
      | Err err => (Returned (Some (Errorf_w "selecting user input: " err)), c1, con)
      | Ok input =>
          match NewClient [onlyFormat (cliFormat c1)] with
          | Err err =>
              (Returned (Some (Errorf_w "creating compressor client: " err)), c1, con)
          | Ok client =>
              let call :=
                if String.eqb (action c1) ActionCompress
                then Some (Compress client ctx input)
                else if String.eqb (action c1) ActionDecompress
                then Some (Decompress client ctx input)
                else None in
              match call with
              | None | Some Panics => (Panicked, c1, con)
              | Some Hangs => (Waits, c1, con)
              | Some (Returns s) =>
                  match settle (Returns s) with
                  | None => (Waits, c1, con)
                  | Some h =>
                      match copyOut ctx (Output c1) h 0 con with
                      | (copyFailed err, con1) =>
                          (Returned (Some (Errorf_w "copying action output: " err)),
                           c1, con1)
                      | (copyWaits, con1) => (Waits, c1, con1)
                      | (copyPanics, con1) => (Panicked, c1, con1)
                      | (copyDone, con1) =>
                          match chanRecv h with
                          | None => (Waits, c1, con1)
                          | Some (Some err) =>
                              (Returned (Some (Errorf_w "running action: " err)),
                               c1, con1)
                          | Some None => (Returned None, c1, con1)
                          end
                      end
                  end
              end
          end
      end
  end.

(** [Run]: the result, the receiver afterwards, and the outputs. *)
Definition Run (sys : System) (ctx : Context) (c : Cli) (con : Console)
  : outcome * Cli * Console :=
  match Cli_validate c with
  | Some err =>
      (Returned (Some (Errorf_w "validating CLI configuration: " err)), c, con)
  | None =>
      let c0 := setConfigPath DefaultConfigPath (setFormat (Getenv sys FormatEnv) c) in
      match parseArgs sys c0 con with
      | (Returned (Some err), c1, con1) =>
          (Returned (Some (Errorf_w "parsing arguments: " err)), c1, con1)
      | (Returned None, c1, con1) =>
          if String.eqb (action c1) "help"
          then match printOut c1 (usage (Args0 sys)) con1 with
               | None => (Panicked, c1, con1)
               | Some con2 => (Returned None, c1, con2)
               end
          else if String.eqb (action c1) ActionCompress
                  || String.eqb (action c1) ActionDecompress
          then runAction sys ctx c1 con1
          else match printErr c1 (usage (Args0 sys)) con1 with
               | None => (Panicked, c1, con1)
               | Some con2 =>
                   (Returned (Some (errorString "no action specified")), c1, con2)
               end
      | other => other
      end
  end.


(** *** Properties of the registry *)

Lemma prefix_app (s t : string) : String.prefix s (s ++ t) = true.
Proof.
  induction s as [|a s IH]; simpl.
  - now destruct t.
  - destruct (ascii_dec a a) as [_|ne]; [exact IH | now elim ne].
Qed.

Lemma Contains_prefix (s substr : string) :
  String.prefix substr s = true -> Contains s substr = true.
Proof. intros H. destruct s; cbn [Contains]; rewrite H; reflexivity. Qed.

Lemma Contains_cons (a : ascii) (s substr : string) :
  Contains s substr = true -> Contains (String a s) substr = true.
Proof. intros H. cbn [Contains]. rewrite H. apply orb_true_r. Qed.

Lemma Contains_append (a t substr : string) :
  Contains t substr = true -> Contains (a ++ t) substr = true.
Proof.
  intros H. induction a as [|c a IH]; cbn [append].
  - exact H.
  - apply Contains_cons, IH.
Qed.

Lemma plainByte_escape (c : ascii) :
  plainByte c = true ->
  (nat_of_ascii c <? 128)%nat = true /\ escapeASCII c = String c EmptyString.
Proof.
  unfold plainByte, escapeASCII, isPrintASCII.
  intros H.
  apply andb_prop in H as [H H92]. apply andb_prop in H as [H H34].
  apply negb_true_iff in H92, H34.
  rewrite H34, H92, H. simpl.
  apply andb_prop in H as [_ H]. apply Nat.ltb_lt in H.
  split; [apply Nat.ltb_lt; lia | reflexivity].
Qed.

Lemma quoteBody_plain (s : string) :
  plain s = true -> quoteBody s = s.
Proof.
  induction s as [|c s IH]; simpl; intros H.
  - reflexivity.
  - apply andb_prop in H as [Hc Hs].
    destruct (plainByte_escape c Hc) as [Hlt Hesc].
    rewrite Hlt, Hesc, (IH Hs). reflexivity.
Qed.

Lemma quote_plain (s : string) :
  plain s = true -> quote s = String dquote (s ++ String dquote EmptyString).
Proof. intros H. unfold quote. now rewrite quoteBody_plain. Qed.

(** A client only ever holds two functions: what [validate] lets through. *)
Lemma NewClient_fields (configs : list Config) (c : client) :
  NewClient configs = Ok c ->
  exists w d, c = {| compressor := Some w; decompressor := Some d |}.
Proof.
  unfold NewClient.
  destruct (1 <? List.length configs)%nat; [discriminate|].
  set (config := match configs with [c0] => c0 | _ => _ end).
  destruct (match Decompressor config, Compressor config with
            | None, None => _ | _, _ => _ end) as [cfg|err]; [|discriminate].
  unfold validate.
  destruct (Decompressor cfg) as [d|]; [|discriminate].
  destruct (Compressor cfg) as [w|]; [|discriminate].
  intros [= <-]. now exists w, d.
Qed.

(** C6 (as amended): a configuration with exactly one of the two overrides
    does not make a client, whatever its format.  With the compressor
    alone the error reads "validating configuration: decompressor must be
    configured"; with the decompressor alone, "validating configuration:
    compressor must be configured". *)
Theorem partial_override_rejected
    (f : Format) (w : WriteCloser) (d : reader -> result ReadCloser) :
  NewClient [{| format := f; Compressor := Some w; Decompressor := None |}]
    = Err (wrapError "validating configuration: decompressor must be configured"
             (errorString "decompressor must be configured"))
  /\
  NewClient [{| format := f; Compressor := None; Decompressor := Some d |}]
    = Err (wrapError "validating configuration: compressor must be configured"
             (errorString "compressor must be configured")).
Proof. split; reflexivity. Qed.

(** C7 (as amended): with no override, a format that is not "gzip",
    "noop" or empty does not make a client; the error reads "unknown
    compression format" followed by the format as [%q] prints it.  When
    the format is made of printable ASCII characters other than the
    double quote and the backslash, that is the format itself between
    double quotes, so the message contains it verbatim. *)
Theorem unknown_format_rejected (f : Format) :
  f <> FormatGzip -> f <> "" -> f <> FormatNoop ->
  NewClient [onlyFormat f]
    = Err (errorString ("unknown compression format " ++ quote f))
  /\ (plain f = true ->
      quote f = String dquote (f ++ String dquote EmptyString)
      /\ Contains ("unknown compression format " ++ quote f) f = true).
Proof.
  intros Hg He Hn.
  split.
  - unfold NewClient, onlyFormat. cbn -[String.eqb quote].
    apply String.eqb_neq in Hg, He, Hn.
    rewrite Hg, He, Hn. reflexivity.
  - intros Hp. split; [now apply quote_plain|].
    rewrite (quote_plain f Hp).
    apply Contains_append, Contains_cons, Contains_prefix, prefix_app.
Qed.

(** C10: with both overrides a client is made of exactly these two,
    whatever the format: the format is not looked at. *)
Theorem both_overrides_used_verbatim
    (f : Format) (w : WriteCloser) (d : reader -> result ReadCloser) :
  NewClient [{| format := f; Compressor := Some w; Decompressor := Some d |}]
    = Ok {| compressor := Some w; decompressor := Some d |}.
Proof. reflexivity. Qed.

(** The built-in formats, for reference: empty and "gzip" give the gzip
    pair, "noop" the pass-through pair, no configuration the gzip pair. *)
Lemma NewClient_noop : NewClient [onlyFormat FormatNoop] = Ok noopClient.
Proof. reflexivity. Qed.

Lemma NewClient_default :
  NewClient [] = NewClient [onlyFormat FormatGzip]
  /\ NewClient [onlyFormat ""] = NewClient [onlyFormat FormatGzip].
Proof. split; reflexivity. Qed.

Lemma NewClient_two_configs (a b : Config) (rest : list Config) :
  NewClient (a :: b :: rest) = Err (errorString "only one config can be passed").
Proof. reflexivity. Qed.

End Package.

(** ** Histories *)

Lemma pipeClosed_app (h t : history) :
  pipeClosed (h ++ t) = pipeClosed h || pipeClosed t.
Proof. apply existsb_app. Qed.

Lemma pipeBytes_app (h t : history) : pipeBytes (h ++ t) = pipeBytes h ++ pipeBytes t.
Proof.
  induction h as [|[p| |v] h IH]; simpl; try exact IH.
  - reflexivity.
  - now rewrite IH, app_assoc.
Qed.

Lemma pipeBytes_Sent (h : history) (v : option error) :
  pipeBytes (h ++ [Sent v]) = pipeBytes h.
Proof. rewrite pipeBytes_app. apply app_nil_r. Qed.

Lemma chanBuf_app (h t : history) : chanBuf (h ++ t) = chanBuf h ++ chanBuf t.
Proof.
  induction h as [|[p| |v] h IH]; simpl; try exact IH.
  - reflexivity.
  - now rewrite IH.
Qed.

Lemma chanBuf_firstn (n : nat) (h : history) :
  chanBuf h = [] -> chanBuf (firstn n h) = [].
Proof.
  revert n. induction h as [|[p| |v] h IH]; intros [|n]; simpl; auto; discriminate.
Qed.

Lemma closedBeforeSent_app (closed : bool) (h t : history) :
  chanBuf h = [] ->
  closedBeforeSent closed (h ++ t) = closedBeforeSent (closed || pipeClosed h) t.
Proof.
  revert closed. induction h as [|[p| |v] h IH]; intros closed; simpl; intros H.
  - now rewrite orb_false_r.
  - now apply IH.
  - rewrite (IH true H). now rewrite orb_true_r.
  - discriminate.
Qed.

(** ** Code over the pipe's write end *)

(** A write adds nothing to the history, or what the read end took of it,
    the pipe being open. *)
Lemma ctxWrite_adds (ctx : Context) (p : bytes) (h : history) :
  snd (ctxWrite ctx p h) = h
  \/ exists q, pipeClosed h = false /\ snd (ctxWrite ctx p h) = h ++ [Wrote q].
Proof.
  unfold ctxWrite.
  destruct (ctx (List.length h)) as [[err taken]|]; cbn [snd].
  - destruct (pipeClosed h); cbn [orb]; [now left|].
    destruct (negb (nonEmpty (firstn taken p))); [now left|].
    right. now exists (firstn taken p).
  - destruct (pipeClosed h); cbn [snd]; [now left|].
    right. now exists p.
Qed.

Section Sink.

Variable ctx : Context.

Lemma runSink_bind {A B : Type} (m : sinkM A) (f : A -> sinkM B) (h : history) :
  runSink ctx (bind m f) h
  = runSink ctx (f (fst (runSink ctx m h))) (snd (runSink ctx m h)).
Proof.
  revert h. induction m as [a|p k IH|k IH]; intros h; simpl.
  - reflexivity.
  - destruct (ctxWrite ctx p h) as [r h1]. apply IH.
  - apply IH.
Qed.

(** Such code only adds to the history, and nothing to the channel. *)
Lemma runSink_extends {A : Type} (m : sinkM A) (h : history) :
  exists t, snd (runSink ctx m h) = h ++ t /\ chanBuf t = [].
Proof.
  revert h. induction m as [a|p k IH|k IH]; intros h; simpl.
  - exists []. now rewrite app_nil_r.
  - pose proof (ctxWrite_adds ctx p h) as Hw.
    destruct (ctxWrite ctx p h) as [r h1]. cbn [snd] in Hw.
    destruct Hw as [-> | (q & _ & ->)]; [apply IH|].
    destruct (IH r (h ++ [Wrote q])) as (t & Ht & Hc).
    exists (Wrote q :: t). rewrite Ht, <- app_assoc. now split.
  - destruct (IH None (h ++ [ClosedPipe])) as (t & Ht & Hc).
    exists (ClosedPipe :: t). rewrite Ht, <- app_assoc. now split.
Qed.

Lemma runSink_chanBuf {A : Type} (m : sinkM A) :
  chanBuf (snd (runSink ctx m [])) = [].
Proof. destruct (runSink_extends m []) as (t & -> & Hc). exact Hc. Qed.

(** A task sends the value of its function literal, once, as its last
    step; the buffer of the channel is empty until then. *)
Lemma goSend_fresh (f : sinkM (option error)) :
  goSend ctx f []
  = Some (snd (runSink ctx f []) ++ [Sent (fst (runSink ctx f []))]).
Proof.
  unfold goSend. pose proof (runSink_chanBuf f) as Hc.
  destruct (runSink ctx f []) as [v h1]. simpl in *.
  unfold chanSend. now rewrite Hc.
Qed.

End Sink.

(** [io.Copy] to the write end itself, under a context that is never
    cancelled and with the read end drained: every non-empty read is written
    as it is, and the copy ends as the reader does. *)
Lemma ioCopy_sameWriter (r : reader) (h : history) :
  pipeClosed h = false ->
  runSink Background (ioCopy sameWriter tt r) h
  = ((tt, endOf r), h ++ map Wrote (filter nonEmpty (chunksOf r))).
Proof.
  revert h. induction r as [|err|p next IH]; intros h Hopen; simpl.
  - now rewrite app_nil_r.
  - now rewrite app_nil_r.
  - destruct p as [|b p]; simpl.
    + now apply IH.
    + unfold ctxWrite. cbn [Background]. rewrite Hopen.
      cbn [List.length]. rewrite Nat.ltb_irrefl, Nat.eqb_refl.
      rewrite IH.
      * now rewrite <- app_assoc.
      * rewrite pipeClosed_app, Hopen. reflexivity.
Qed.

Lemma pipeBytes_Wrote (l : list bytes) :
  pipeBytes (map Wrote (filter nonEmpty l)) = List.concat l.
Proof.
  induction l as [|[|b p] l IH]; simpl; auto.
  now rewrite IH.
Qed.

Lemma pipeClosed_Wrote (l : list bytes) : pipeClosed (map Wrote l) = false.
Proof. induction l as [|p l IH]; simpl; auto. Qed.

Lemma chanBuf_Wrote (l : list bytes) : chanBuf (map Wrote l) = [].
Proof. induction l as [|p l IH]; simpl; auto. Qed.

Lemma concat_chunksOf (chunks : list bytes) : chunksOf (readerOf chunks) = chunks.
Proof. induction chunks as [|p l IH]; simpl; congruence. Qed.

Lemma endOf_readerOf (chunks : list bytes) : endOf (readerOf chunks) = None.
Proof. induction chunks as [|p l IH]; simpl; auto. Qed.

Lemma error_eqb_refl (e : error) : error_eqb e e = true.
Proof.
  induction e as [s|m e IH]; simpl.
  - apply String.eqb_refl.
  - now rewrite String.eqb_refl, IH.
Qed.

(** [errors.Is] finds the cause under the wrapping of [fmt.Errorf]. *)
Lemma Is_Errorf_w (prefix : string) (err : error) : Is (Errorf_w prefix err) err = true.
Proof.
  unfold Errorf_w. cbn [Is].
  destruct err; cbn [Is]; rewrite error_eqb_refl; apply orb_true_r.
Qed.

(** ** The channel *)

Lemma drainThenReceive_closed (h : history) (v : option error) :
  pipeClosed h = true -> chanBuf h = [] ->
  drainThenReceive (h ++ [Sent v]) = Finished (pipeBytes h) v.
Proof.
  intros Hc Hb. unfold drainThenReceive, drain, chanRecv.
  rewrite pipeClosed_app, Hc, pipeBytes_app, chanBuf_app, Hb.
  simpl. now rewrite app_nil_r.
Qed.

Lemma drainThenReceive_open (h : history) :
  pipeClosed h = false -> drainThenReceive h = Deadlock.
Proof. intros Hc. unfold drainThenReceive, drain. now rewrite Hc. Qed.

(** ** The tasks *)

Section Tasks.

Variable ctx : Context.

(** The history [Compress]'s function literal leaves, by the way it ends. *)
Lemma compressFunc_run (w : WriteCloser) (input : reader) :
  let copied := runSink ctx (ioCopy w (winit w) input) [] in
  let closed := runSink ctx (Close w (fst (fst copied))) (snd copied) in
  runSink ctx (compressFunc w input) []
  = match snd (fst copied) with
    | Some err => (Some (Errorf_w "compressing data: " err), snd copied)
    | None =>
        match snd (fst closed) with
        | Some err => (Some (Errorf_w "closing compressor: " err), snd closed)
        | None => (None, snd closed ++ [ClosedPipe])
        end
    end.
Proof.
  cbv zeta. unfold compressFunc. rewrite runSink_bind.
  destruct (snd (fst (runSink ctx (ioCopy w (winit w) input) []))) as [err|].
  - reflexivity.
  - rewrite runSink_bind.
    destruct (snd (fst (runSink ctx (Close w _) _))) as [err|]; reflexivity.
Qed.

(** The history [Decompress]'s function literal leaves. *)
Lemma decompressFunc_run (d : ReadCloser) :
  let copied := runSink ctx (ioCopy sameWriter tt (reads d)) [] in
  runSink ctx (decompressFunc d) []
  = match snd (fst copied) with
    | Some err => (Some (Errorf_w "decompressing data: " err), snd copied)
    | None =>
        (firstError "decompressing data: " None "closing decompressor: " (closeErr d),
         snd copied ++ [ClosedPipe])
    end.
Proof.
  cbv zeta. unfold decompressFunc. rewrite runSink_bind.
  destruct (snd (fst (runSink ctx (ioCopy sameWriter tt (reads d)) []))) as [err|];
    reflexivity.
Qed.

Lemma settle_Compress (w : WriteCloser) (newD : option (reader -> result ReadCloser))
    (input : reader) :
  settle (Compress {| compressor := Some w; decompressor := newD |} ctx input)
  = Some (snd (runSink ctx (compressFunc w input) [])
          ++ [Sent (fst (runSink ctx (compressFunc w input) []))]).
Proof. unfold Compress. cbn [compressor settle spawned before]. apply goSend_fresh. Qed.

Lemma settle_Decompress (w : option WriteCloser) (newD : reader -> result ReadCloser)
    (input : reader) (d : ReadCloser) :
  newD input = Ok d ->
  settle (Decompress {| compressor := w; decompressor := Some newD |} ctx input)
  = Some (snd (runSink ctx (decompressFunc d) [])
          ++ [Sent (fst (runSink ctx (decompressFunc d) []))]).
Proof.
  intros H. unfold Decompress. cbn [decompressor]. rewrite H.
  cbn [settle spawned before]. apply goSend_fresh.
Qed.

Lemma chanRecv_last (h : history) (v : option error) :
  chanBuf h = [] -> chanRecv (h ++ [Sent v]) = Some v.
Proof. intros H. unfold chanRecv. now rewrite chanBuf_app, H. Qed.

End Tasks.

(** ** Compress and Decompress *)

(** C3: the value a call leaves in the error channel.  For [Compress] it is
    the error of the copy if the copy failed, whatever closing the
    compressor would return; the error of closing the compressor if only
    that failed; nil if both succeeded.  For [Decompress] with a
    decompressor that could be made, the same with the decompressor's
    [Close]. *)
Theorem first_error_wins
    (w : WriteCloser) (newD : reader -> result ReadCloser)
    (ctx : Context) (input : reader) :
  deposited (Compress {| compressor := Some w; decompressor := Some newD |} ctx input)
  = Some (firstError "compressing data: " (compressCopyErr ctx w input)
                     "closing compressor: " (compressCloseErr ctx w input))
  /\ match newD input with
     | Ok d =>
         deposited (Decompress {| compressor := Some w; decompressor := Some newD |}
                      ctx input)
         = Some (firstError "decompressing data: " (decompressCopyErr ctx d)
                            "closing decompressor: " (closeErr d))
     | Err err =>
         deposited (Decompress {| compressor := Some w; decompressor := Some newD |}
                      ctx input)
         = Some (Some (Errorf_w "creating decompressor: " err))
     end.
Proof.
  split.
  - unfold deposited. rewrite settle_Compress.
    rewrite chanRecv_last by apply runSink_chanBuf.
    rewrite compressFunc_run. cbv zeta.
    unfold firstError, compressCopyErr, compressCloseErr.
    destruct (snd (fst (runSink ctx (ioCopy w (winit w) input) []))) as [err|];
      [reflexivity|].
    destruct (snd (fst (runSink ctx (Close w _) _))) as [err|]; reflexivity.
  - destruct (newD input) as [d|err] eqn:HnewD.
    + unfold deposited. rewrite (settle_Decompress ctx _ _ _ d HnewD).
      rewrite chanRecv_last by apply runSink_chanBuf.
      rewrite decompressFunc_run. cbv zeta.
      unfold firstError, decompressCopyErr.
      destruct (snd (fst (runSink ctx (ioCopy sameWriter tt (reads d)) [])));
        reflexivity.
    + unfold deposited, Decompress. cbn [decompressor]. rewrite HnewD. reflexivity.
Qed.

(** C2: when the decompressor cannot be made, [Decompress] returns (it
    neither panics nor hangs) having started no task, sent the error,
    wrapped as "creating decompressor", into the channel and then closed the
    pipe: a read of the output finds the end of the stream, and the channel
    holds that error. *)
Theorem Decompress_constructor_failure
    (c : client) (newD : reader -> result ReadCloser)
    (ctx : Context) (input : reader) (err : error) :
  decompressor c = Some newD ->
  newD input = Err err ->
  Decompress c ctx input
    = Returns {| before := [Sent (Some (Errorf_w "creating decompressor: " err));
                            ClosedPipe];
                 spawned := None |}
  /\ drain [Sent (Some (Errorf_w "creating decompressor: " err)); ClosedPipe] = Some []
  /\ chanRecv [Sent (Some (Errorf_w "creating decompressor: " err)); ClosedPipe]
     = Some (Some (Errorf_w "creating decompressor: " err))
  /\ Is (Errorf_w "creating decompressor: " err) err = true.
Proof.
  intros Hc Herr. unfold Decompress. rewrite Hc, Herr.
  repeat split. apply Is_Errorf_w.
Qed.

(** With the default client the rejected input is reported with the
    prefix twice: once by the gzip pair of the package, once by
    [Decompress]. *)
Lemma Decompress_default_constructor_failure
    (gzipNewWriter : WriteCloser) (gzipNewReader : reader -> result ReadCloser)
    (quoteNonASCII : string -> string)
    (c : client) (ctx : Context) (input : reader) (err : error) :
  NewClient gzipNewWriter gzipNewReader quoteNonASCII [] = Ok c ->
  gzipNewReader input = Err err ->
  deposited (Decompress c ctx input)
  = Some (Some (Errorf_w "creating decompressor: "
                  (Errorf_w "creating decompressor: " err))).
Proof.
  intros Hc Herr. cbv [NewClient List.length Nat.ltb Nat.leb] in Hc.
  injection Hc as <-.
  unfold deposited, Decompress. cbn [decompressor gzipConfig Decompressor].
  rewrite Herr. reflexivity.
Qed.

(** Code over the write end adds nothing to the channel, however far its
    output is read. *)
Lemma runSinkReading_extends {A : Type} (ctx : Context) (m : sinkM A) :
  forall (n : nat) (h : history),
    exists t, snd (runSinkReading ctx n m h) = h ++ t /\ chanBuf t = [].
Proof.
  induction m as [a|p k IH|k IH]; intros n h; cbn [runSinkReading].
  - exists []. now rewrite app_nil_r.
  - destruct n as [|n].
    + destruct (ctx (List.length h)) as [[err taken]|]; [apply IH|].
      destruct (pipeClosed h); [apply IH|].
      exists []. now rewrite app_nil_r.
    + pose proof (ctxWrite_adds ctx p h) as Hw.
      destruct (ctxWrite ctx p h) as [r h1]. cbn [snd] in Hw.
      destruct Hw as [-> | (q & _ & ->)]; [apply IH|].
      destruct (IH r n (h ++ [Wrote q])) as (t & Ht & Hc).
      exists (Wrote q :: t). rewrite Ht, <- app_assoc. now split.
  - cbn [ctxClose]. destruct (IH None n (h ++ [ClosedPipe])) as (t & Ht & Hc).
    exists (ClosedPipe :: t). rewrite Ht, <- app_assoc. now split.
Qed.

Lemma runSinkReading_chanBuf {A : Type} (ctx : Context) (n : nat) (m : sinkM A) :
  chanBuf (snd (runSinkReading ctx n m [])) = [].
Proof. destruct (runSinkReading_extends ctx m n []) as (t & -> & Hc). exact Hc. Qed.

(** The task of such a call: left waiting in a write, or ended by the send
    of what its function literal returned. *)
Lemma goSendReading_fresh (ctx : Context) (n : nat) (f : sinkM (option error)) :
  goSendReading ctx n f []
  = match fst (runSinkReading ctx n f []) with
    | Some v => Ended (snd (runSinkReading ctx n f []) ++ [Sent v])
    | None => Waiting (snd (runSinkReading ctx n f []))
    end.
Proof.
  unfold goSendReading. pose proof (runSinkReading_chanBuf ctx n f) as Hc.
  destruct (runSinkReading ctx n f []) as [[v|] h1]; cbn [fst snd] in *;
    [|reflexivity].
  unfold chanSend. now rewrite Hc.
Qed.

(** Read for long enough, the output is read for as long as it comes: the
    two runs agree, and so do the two accounts of a call. *)
Lemma runSinkReading_enough {A : Type} (ctx : Context) (m : sinkM A) :
  forall h : history,
    exists n0, forall n, n0 <= n ->
      runSinkReading ctx n m h = (Some (fst (runSink ctx m h)), snd (runSink ctx m h)).
Proof.
  induction m as [a|p k IH|k IH]; intros h.
  - exists 0. reflexivity.
  - cbn [runSink]. destruct (ctxWrite ctx p h) as [r h1] eqn:Hw.
    destruct (IH r h1) as [n0 Hn0]. exists (S n0). intros [|n] Hn; [lia|].
    cbn [runSinkReading]. rewrite Hw. apply Hn0. lia.
  - cbn [runSink runSinkReading ctxClose].
    destruct (IH None (h ++ [ClosedPipe])) as [n0 Hn0]. exists n0. exact Hn0.
Qed.

Lemma CompressReading_enough (w : WriteCloser)
    (newD : option (reader -> result ReadCloser)) (ctx : Context) (input : reader) :
  exists n0, forall n, n0 <= n ->
    CompressReading n {| compressor := Some w; decompressor := newD |} ctx input
    = option_map Ended
        (settle (Compress {| compressor := Some w; decompressor := newD |} ctx input)).
Proof.
  destruct (runSinkReading_enough ctx (compressFunc w input) []) as [n0 Hn0].
  exists n0. intros n Hn. rewrite settle_Compress.
  unfold CompressReading. cbn [compressor option_map].
  now rewrite goSendReading_fresh, (Hn0 n Hn).
Qed.

Lemma DecompressReading_enough (w : option WriteCloser)
    (newD : reader -> result ReadCloser) (ctx : Context) (input : reader) :
  exists n0, forall n, n0 <= n ->
    DecompressReading n {| compressor := w; decompressor := Some newD |} ctx input
    = option_map Ended
        (settle (Decompress {| compressor := w; decompressor := Some newD |} ctx input)).
Proof.
  destruct (newD input) as [d|err] eqn:HnewD.
  - destruct (runSinkReading_enough ctx (decompressFunc d) []) as [n0 Hn0].
    exists n0. intros n Hn. rewrite (settle_Decompress ctx _ _ _ d HnewD).
    unfold DecompressReading. cbn [decompressor option_map]. rewrite HnewD.
    now rewrite goSendReading_fresh, (Hn0 n Hn).
  - exists 0. intros n _. unfold DecompressReading, Decompress.
    cbn [decompressor]. rewrite HnewD. reflexivity.
Qed.

(** While nothing has been sent, a receive finds nothing. *)
Lemma chanRecv_before (t : history) (k : nat) :
  chanBuf t = [] -> chanRecv (firstn k t) = None.
Proof. intros H. unfold chanRecv. now rewrite chanBuf_firstn. Qed.

(** C8, amended: the one value of a call is deposited as the last step of
    its task, and only if the task gets there.  With the output read for as
    long as it comes, the task ends: its history is the one of its function
    literal followed by the send of what the literal returned; a receive at
    any moment before that send finds nothing, it waits, and the channel
    has had that value alone.  With the output read during the first [n]
    writes only, the task either ends in the same way or is left waiting
    in a write, and then nothing is ever sent.  When the decompressor
    cannot be made, [Decompress] sends that error itself, once, before it
    returns. *)
Theorem one_value_sent
    (w : WriteCloser) (newD : reader -> result ReadCloser)
    (ctx : Context) (input : reader) (n : nat) :
  (let f := compressFunc w input in
   let c := {| compressor := Some w; decompressor := Some newD |} in
   settle (Compress c ctx input)
   = Some (snd (runSink ctx f []) ++ [Sent (fst (runSink ctx f []))])
   /\ (forall k, chanRecv (firstn k (snd (runSink ctx f []))) = None)
   /\ chanBuf (snd (runSink ctx f []) ++ [Sent (fst (runSink ctx f []))])
      = [fst (runSink ctx f [])]
   /\ CompressReading n c ctx input
      = Some match fst (runSinkReading ctx n f []) with
             | Some v => Ended (snd (runSinkReading ctx n f []) ++ [Sent v])
             | None => Waiting (snd (runSinkReading ctx n f []))
             end
   /\ (forall k, chanRecv (firstn k (snd (runSinkReading ctx n f []))) = None))
  /\
  (let c := {| compressor := Some w; decompressor := Some newD |} in
   match newD input with
   | Ok d =>
       let f := decompressFunc d in
       settle (Decompress c ctx input)
       = Some (snd (runSink ctx f []) ++ [Sent (fst (runSink ctx f []))])
       /\ (forall k, chanRecv (firstn k (snd (runSink ctx f []))) = None)
       /\ chanBuf (snd (runSink ctx f []) ++ [Sent (fst (runSink ctx f []))])
          = [fst (runSink ctx f [])]
       /\ DecompressReading n c ctx input
          = Some match fst (runSinkReading ctx n f []) with
                 | Some v => Ended (snd (runSinkReading ctx n f []) ++ [Sent v])
                 | None => Waiting (snd (runSinkReading ctx n f []))
                 end
       /\ (forall k, chanRecv (firstn k (snd (runSinkReading ctx n f []))) = None)
   | Err err =>
       settle (Decompress c ctx input)
       = Some [Sent (Some (Errorf_w "creating decompressor: " err)); ClosedPipe]
       /\ DecompressReading n c ctx input
          = Some (Ended [Sent (Some (Errorf_w "creating decompressor: " err));
                         ClosedPipe])
   end).
Proof.
  cbv zeta. split.
  - split; [apply settle_Compress|].
    split; [intros k; apply chanRecv_before, runSink_chanBuf|].
    split; [now rewrite chanBuf_app, runSink_chanBuf|].
    split; [unfold CompressReading; cbn [compressor]; now rewrite goSendReading_fresh|].
    intros k. apply chanRecv_before, runSinkReading_chanBuf.
  - destruct (newD input) as [d|err] eqn:HnewD.
    + split; [apply (settle_Decompress ctx _ _ _ d HnewD)|].
      split; [intros k; apply chanRecv_before, runSink_chanBuf|].
      split; [now rewrite chanBuf_app, runSink_chanBuf|].
      split; [unfold DecompressReading; cbn [decompressor]; rewrite HnewD;
              now rewrite goSendReading_fresh|].
      intros k. apply chanRecv_before, runSinkReading_chanBuf.
    + unfold Decompress, DecompressReading. cbn [decompressor]. rewrite HnewD.
      split; reflexivity.
Qed.

(** The pass-through pair, one direction at a time. *)
Lemma Compress_noop (chunks : list bytes) :
  option_map drainThenReceive
    (settle (Compress noopClient Background (readerOf chunks)))
  = Some (Finished (List.concat chunks) None).
Proof.
  unfold noopClient. cbn [noopConfig Compressor Decompressor].
  rewrite settle_Compress, compressFunc_run. cbv zeta.
  rewrite ioCopy_sameWriter by reflexivity.
  cbn [fst snd]. rewrite endOf_readerOf, concat_chunksOf.
  cbn [sameWriter Close runSink ctxClose fst snd option_map].
  rewrite drainThenReceive_closed.
  - now rewrite !pipeBytes_app, pipeBytes_Wrote, !app_nil_r.
  - rewrite pipeClosed_app. apply orb_true_r.
  - now rewrite !chanBuf_app, chanBuf_Wrote.
Qed.

Lemma Decompress_noop (chunks : list bytes) :
  option_map drainThenReceive
    (settle (Decompress noopClient Background (readerOf chunks)))
  = Some (Finished (List.concat chunks) None).
Proof.
  unfold noopClient. cbn [noopConfig Compressor Decompressor].
  rewrite (settle_Decompress Background _ _ _ (NopCloser (readerOf chunks)))
    by reflexivity.
  rewrite decompressFunc_run. cbv zeta. cbn [NopCloser reads closeErr].
  rewrite ioCopy_sameWriter by reflexivity.
  cbn [fst snd]. rewrite endOf_readerOf, concat_chunksOf.
  cbn [firstError fst snd option_map].
  rewrite drainThenReceive_closed.
  - now rewrite !pipeBytes_app, pipeBytes_Wrote, !app_nil_r.
  - rewrite pipeClosed_app. apply orb_true_r.
  - now rewrite !chanBuf_app, chanBuf_Wrote.
Qed.

(** C5: the client of the "noop" format copies.  Whatever the bytes and
    however the input hands them out, the caller that drains the output
    and then reads the channel gets exactly these bytes and a nil error,
    from [Compress] and from [Decompress]. *)
Theorem noop_is_identity
    (gzipNewWriter : WriteCloser) (gzipNewReader : reader -> result ReadCloser)
    (quoteNonASCII : string -> string) (chunks : list bytes) :
  NewClient gzipNewWriter gzipNewReader quoteNonASCII [onlyFormat FormatNoop]
  = Ok noopClient
  /\ option_map drainThenReceive
       (settle (Compress noopClient Background (readerOf chunks)))
     = Some (Finished (List.concat chunks) None)
  /\ option_map drainThenReceive
       (settle (Decompress noopClient Background (readerOf chunks)))
     = Some (Finished (List.concat chunks) None).
Proof.
  split; [reflexivity|].
  split; [apply Compress_noop | apply Decompress_noop].
Qed.

(** The pass-through half of the round trip: what [Decompress] makes of
    the bytes [Compress] delivered is the input. *)
Lemma noop_round_trip (chunks : list bytes) :
  exists out,
    option_map drainThenReceive
      (settle (Compress noopClient Background (readerOf chunks)))
    = Some (Finished out None)
    /\ option_map drainThenReceive
         (settle (Decompress noopClient Background (readerOf [out])))
       = Some (Finished (List.concat chunks) None).
Proof.
  exists (List.concat chunks). split; [apply Compress_noop|].
  rewrite Decompress_noop. cbn [List.concat]. now rewrite app_nil_r.
Qed.

(** ** The pipe and the channel: which comes first *)

Section Ordering.

Variable ctx : Context.
Variable w : WriteCloser.
Variable newD : reader -> result ReadCloser.
Variable input : reader.

(** When [Compress]'s task ends well, it has closed the pipe before it
    sends: the caller that drains and then receives finishes. *)
Lemma Compress_success_closes_first :
  deposited (Compress {| compressor := Some w; decompressor := Some newD |} ctx input)
  = Some None ->
  exists h,
    settle (Compress {| compressor := Some w; decompressor := Some newD |} ctx input)
    = Some h
    /\ closedBeforeSent false h = true
    /\ drainThenReceive h = Finished (pipeBytes h) None.
Proof.
  unfold deposited. rewrite settle_Compress.
  rewrite chanRecv_last by apply runSink_chanBuf.
  pose proof (runSink_chanBuf ctx (compressFunc w input)) as Hbuf.
  rewrite compressFunc_run in *. cbv zeta in *.
  destruct (snd (fst (runSink ctx (ioCopy w (winit w) input) []))) as [err|];
    [discriminate|].
  destruct (snd (fst (runSink ctx (Close w _) _))) as [err|]; [discriminate|].
  cbn [fst snd] in *. intros _.
  eexists. split; [reflexivity|].
  assert (Hclosed : pipeClosed (snd (runSink ctx
            (Close w (fst (fst (runSink ctx (ioCopy w (winit w) input) []))))
            (snd (runSink ctx (ioCopy w (winit w) input) []))) ++ [ClosedPipe]) = true)
    by (rewrite pipeClosed_app; apply orb_true_r).
  split.
  - rewrite closedBeforeSent_app by exact Hbuf. now rewrite Hclosed.
  - rewrite drainThenReceive_closed by assumption.
    now rewrite pipeBytes_Sent.
Qed.

(** When [Compress]'s copy fails, the task sends right after the copy: it
    closes nothing itself. *)
Lemma Compress_copy_failure_sends_at_once (err : error) :
  compressCopyErr ctx w input = Some err ->
  settle (Compress {| compressor := Some w; decompressor := Some newD |} ctx input)
  = Some (snd (runSink ctx (ioCopy w (winit w) input) [])
          ++ [Sent (Some (Errorf_w "compressing data: " err))]).
Proof.
  unfold compressCopyErr. intros H.
  rewrite settle_Compress, compressFunc_run. cbv zeta. now rewrite H.
Qed.

(** When closing the compressor fails, the task sends right after that. *)
Lemma Compress_close_failure_sends_at_once (err : error) :
  compressCopyErr ctx w input = None ->
  compressCloseErr ctx w input = Some err ->
  settle (Compress {| compressor := Some w; decompressor := Some newD |} ctx input)
  = Some (snd (runSink ctx
                 (Close w (fst (fst (runSink ctx (ioCopy w (winit w) input) []))))
                 (snd (runSink ctx (ioCopy w (winit w) input) [])))
          ++ [Sent (Some (Errorf_w "closing compressor: " err))]).
Proof.
  unfold compressCopyErr, compressCloseErr. cbv zeta. intros H1 H2.
  rewrite settle_Compress, compressFunc_run. cbv zeta. now rewrite H1, H2.
Qed.

(** When [Decompress]'s copy succeeds, the task closes the pipe before it
    sends, whether closing the decompressor fails or not. *)
Lemma Decompress_copied_closes_first (d : ReadCloser) :
  newD input = Ok d ->
  decompressCopyErr ctx d = None ->
  exists h v,
    settle (Decompress {| compressor := Some w; decompressor := Some newD |} ctx input)
    = Some h
    /\ closedBeforeSent false h = true
    /\ drainThenReceive h = Finished (pipeBytes h) v.
Proof.
  unfold decompressCopyErr. intros HnewD Hcopy.
  rewrite (settle_Decompress ctx _ _ _ d HnewD).
  pose proof (runSink_chanBuf ctx (decompressFunc d)) as Hbuf.
  rewrite decompressFunc_run in *. cbv zeta in *. rewrite Hcopy in *.
  cbn [fst snd] in *.
  eexists _, _. split; [reflexivity|].
  assert (Hclosed : pipeClosed
            (snd (runSink ctx (ioCopy sameWriter tt (reads d)) []) ++ [ClosedPipe]) = true)
    by (rewrite pipeClosed_app; apply orb_true_r).
  split.
  - rewrite closedBeforeSent_app by exact Hbuf. now rewrite Hclosed.
  - rewrite drainThenReceive_closed by assumption.
    now rewrite pipeBytes_Sent.
Qed.

(** When [Decompress]'s copy fails, the task sends right after the copy. *)
Lemma Decompress_copy_failure_sends_at_once (d : ReadCloser) (err : error) :
  newD input = Ok d ->
  decompressCopyErr ctx d = Some err ->
  settle (Decompress {| compressor := Some w; decompressor := Some newD |} ctx input)
  = Some (snd (runSink ctx (ioCopy sameWriter tt (reads d)) [])
          ++ [Sent (Some (Errorf_w "decompressing data: " err))]).
Proof.
  unfold decompressCopyErr. intros HnewD H.
  rewrite (settle_Decompress ctx _ _ _ d HnewD), decompressFunc_run.
  cbv zeta. now rewrite H.
Qed.

End Ordering.

(** C1, at an input whose first read fails (the reader of the package's
    [bad_input_is_given] test), with the "noop" client and a context that
    is never cancelled: [Compress]'s task sends the error of the copy and
    ends without having closed the pipe.  The send is not preceded by a
    close, and the caller that drains the output before it reads the
    channel waits for ever. *)
Theorem Compress_bad_input_leaves_pipe_open :
  settle (Compress noopClient Background badReader)
  = Some [Sent (Some (Errorf_w "compressing data: " (errorString "reading error")))]
  /\ pipeClosed
       [Sent (Some (Errorf_w "compressing data: " (errorString "reading error")))]
     = false
  /\ closedBeforeSent false
       [Sent (Some (Errorf_w "compressing data: " (errorString "reading error")))]
     = false
  /\ drainThenReceive
       [Sent (Some (Errorf_w "compressing data: " (errorString "reading error")))]
     = Deadlock.
Proof. repeat split. Qed.

(** The same on the two other paths that end in an error. *)
Lemma Decompress_bad_input_pipe_stays_open :
  settle (Decompress noopClient Background badReader)
  = Some [Sent (Some (Errorf_w "decompressing data: " (errorString "reading error")))]
  /\ drainThenReceive
       [Sent (Some (Errorf_w "decompressing data: " (errorString "reading error")))]
     = Deadlock.
Proof. repeat split. Qed.

Lemma Compress_close_failure_pipe_stays_open :
  settle (Compress {| compressor := Some failingCloser;
                      decompressor := Decompressor noopConfig |}
            Background (readerOf [testData]))
  = Some [Wrote testData;
          Sent (Some (Errorf_w "closing compressor: " (errorString "test error")))]
  /\ drainThenReceive
       [Wrote testData;
        Sent (Some (Errorf_w "closing compressor: " (errorString "test error")))]
     = Deadlock.
Proof. repeat split. Qed.

(** ** Instances *)

(** C2 at the bytes of [foo] and a decompressor that rejects them. *)
Lemma Decompress_constructor_failure_foo :
  decompressor rejectingClient = Some rejectingReader
  /\ rejectingReader (readerOf [testData]) = Err ErrHeader
  /\ Decompress rejectingClient Background (readerOf [testData])
     = Returns {| before := [Sent (Some (Errorf_w "creating decompressor: " ErrHeader));
                             ClosedPipe];
                  spawned := None |}
  /\ drain [Sent (Some (Errorf_w "creating decompressor: " ErrHeader)); ClosedPipe]
     = Some [].
Proof.
  split; [reflexivity|]. split; [reflexivity|].
  destruct (Decompress_constructor_failure rejectingClient rejectingReader
              Background (readerOf [testData]) ErrHeader eq_refl eq_refl)
    as (H1 & H2 & _).
  split; [exact H1 | exact H2].
Defined.

(** C8, as the spec words it: a call whose output nobody reads, under a
    context that is never cancelled, never has a value in its channel.  The
    task of [Compress], and of [Decompress], on the pass-through client and
    the input [foo] is left waiting in its first write on the pipe; nothing
    has been sent, and a receive finds nothing. *)
Lemma unread_output_gets_no_value :
  CompressReading 0 noopClient Background (readerOf [testData]) = Some (Waiting [])
  /\ DecompressReading 0 noopClient Background (readerOf [testData])
     = Some (Waiting [])
  /\ chanBuf [] = []
  /\ chanRecv [] = None.
Proof. repeat split. Qed.

(** C6, as the spec words it: the error of a configuration with one
    override does not read "must configure both compressor and
    decompressor".  (The gzip pair given to [NewClient] plays no part.) *)
Lemma partial_override_message :
  NewClient sameWriter rejectingReader noNonASCII
    [{| format := ""; Compressor := Some sameWriter; Decompressor := None |}]
  = Err (wrapError "validating configuration: decompressor must be configured"
           (errorString "decompressor must be configured"))
  /\ Contains "validating configuration: decompressor must be configured"
       "must configure both compressor and decompressor" = false
  /\ NewClient sameWriter rejectingReader noNonASCII
       [{| format := ""; Compressor := None;
           Decompressor := Some (fun a => Ok (NopCloser a)) |}]
     = Err (wrapError "validating configuration: compressor must be configured"
              (errorString "compressor must be configured"))
  /\ Contains "validating configuration: compressor must be configured"
       "must configure both compressor and decompressor" = false.
Proof. repeat split. Qed.

(** C7, as the spec words it: for the format a, double quote, b the error
    does not contain the format; [%q] has put a backslash before the
    quote. *)
Lemma quoted_format_not_verbatim :
  NewClient sameWriter rejectingReader noNonASCII [onlyFormat quotedFormat]
  = Err (errorString
           ("unknown compression format "
              ++ String dquote (String "a" (String backslash (String dquote
                   (String "b" (String dquote EmptyString)))))))
  /\ Contains
       ("unknown compression format "
          ++ String dquote (String "a" (String backslash (String dquote
               (String "b" (String dquote EmptyString))))))
       quotedFormat = false.
Proof. split; reflexivity. Qed.

(** C7 (as amended) at the format of the package's test. *)
Lemma unknown_format_rejected_badFormat :
  "badFormat" <> FormatGzip /\ "badFormat" <> "" /\ "badFormat" <> FormatNoop
  /\ plain "badFormat" = true
  /\ NewClient sameWriter rejectingReader noNonASCII [onlyFormat "badFormat"]
     = Err (errorString ("unknown compression format " ++ quote noNonASCII "badFormat"))
  /\ Contains ("unknown compression format " ++ quote noNonASCII "badFormat")
       "badFormat" = true.
Proof.
  assert (Hg : "badFormat" <> FormatGzip) by discriminate.
  assert (He : "badFormat" <> "") by discriminate.
  assert (Hn : "badFormat" <> FormatNoop) by discriminate.
  destruct (unknown_format_rejected sameWriter rejectingReader noNonASCII
              "badFormat" Hg He Hn) as [H1 H2].
  destruct (H2 eq_refl) as [_ H3].
  repeat split; assumption.
Defined.

(** * More of the code *)

(** ** pkg/compressor: the registry *)

(** X1: The formats [NewClient] accepts when no override is given are the empty
    one and those [AvailableFormats] lists, no other. *)
Theorem NewClient_accepts_listed_formats
    (gzipNewWriter : WriteCloser) (gzipNewReader : reader -> result ReadCloser)
    (quoteNonASCII : string -> string) (f : Format) :
  isOk (NewClient gzipNewWriter gzipNewReader quoteNonASCII [onlyFormat f])
  = listedFormat f.
Proof.
  unfold NewClient, onlyFormat, listedFormat, AvailableFormats.
  cbn -[String.eqb quote].
  destruct (String.eqb f FormatGzip), (String.eqb f ""), (String.eqb f FormatNoop);
    reflexivity.
Qed.

(** X2: A client that [NewClient] has made holds both functions: [Compress]
    and [Decompress] on it return, they neither panic nor hang. *)
Theorem NewClient_client_never_panics
    (gzipNewWriter : WriteCloser) (gzipNewReader : reader -> result ReadCloser)
    (quoteNonASCII : string -> string)
    (configs : list Config) (c : client) (ctx : Context) (input : reader) :
  NewClient gzipNewWriter gzipNewReader quoteNonASCII configs = Ok c ->
  (exists s, Compress c ctx input = Returns s)
  /\ (exists s, Decompress c ctx input = Returns s).
Proof.
  intros H. apply NewClient_fields in H as (w & d & ->). split.
  - eexists. reflexivity.
  - unfold Decompress. cbn [decompressor].
    destruct (d input) as [rc|err]; eexists; reflexivity.
Qed.

Lemma NewClient_client_never_panics_noop :
  NewClient sameWriter rejectingReader noNonASCII [onlyFormat FormatNoop] = Ok noopClient
  /\ (exists s, Compress noopClient Background badReader = Returns s)
  /\ (exists s, Decompress noopClient Background badReader = Returns s).
Proof.
  split; [reflexivity|].
  exact (NewClient_client_never_panics sameWriter rejectingReader noNonASCII
           [onlyFormat FormatNoop] noopClient Background badReader eq_refl).
Defined.

(** ** pkg/compressor: what reaches the output *)

Lemma concat_filter_nonEmpty (l : list bytes) :
  List.concat (filter nonEmpty l) = List.concat l.
Proof.
  induction l as [|[|b p] l IH]; simpl; auto.
  now rewrite IH.
Qed.

(** [io.Copy] to the write end under any context: what the read end takes
    is a beginning of what the source hands out, a write that is cut short
    adding a beginning of its piece; the pipe is not closed. *)
Lemma ioCopy_sameWriter_prefix (ctx : Context) (r : reader) (h : history) :
  exists t rest,
    snd (runSink ctx (ioCopy sameWriter tt r) h) = h ++ t
    /\ List.concat (chunksOf r) = pipeBytes t ++ rest
    /\ pipeClosed t = false.
Proof.
  revert h. induction r as [|err|p next IH]; intros h.
  - exists [], []. simpl. now rewrite app_nil_r.
  - exists [], []. simpl. now rewrite app_nil_r.
  - destruct p as [|b p].
    + destruct (IH h) as (t & rest & Ht & Hb & Hc). exists t, rest. simpl. auto.
    + cbn [ioCopy sameWriter Write bind runSink chunksOf List.concat].
      unfold ctxWrite.
      destruct (ctx (List.length h)) as [[err taken]|].
      * destruct (pipeClosed h || negb (nonEmpty (firstn taken (b :: p)))).
        -- exists [], ((b :: p) ++ List.concat (chunksOf next)).
           cbn. now rewrite app_nil_r.
        -- exists [Wrote (firstn taken (b :: p))],
             (skipn taken (b :: p) ++ List.concat (chunksOf next)).
           cbn [runSink fst snd pipeBytes pipeClosed existsb isClose orb].
           rewrite app_nil_r, app_assoc, firstn_skipn.
           change (List.length (b :: p) <? 0)%nat with false.
           cbn [runSink snd]. repeat split.
      * destruct (pipeClosed h).
        -- exists [], ((b :: p) ++ List.concat (chunksOf next)).
           cbn. now rewrite app_nil_r.
        -- cbn [List.length]. rewrite Nat.ltb_irrefl, Nat.eqb_refl.
           destruct (IH (h ++ [Wrote (b :: p)])) as (t & rest & Ht & Hb & Hc).
           exists (Wrote (b :: p) :: t), rest.
           rewrite Ht, <- app_assoc. cbn [app pipeBytes]. rewrite Hb.
           now rewrite <- app_assoc.
Qed.

(** X3: Through [Decompress] the output is, under any context and for any
    decompressor, a beginning of the decompressed stream; through
    [Compress] with the pass-through compressor, a beginning of the
    input.  Nothing is added, dropped in the middle or reordered. *)
Theorem output_is_prefix
    (w : WriteCloser) (d : ReadCloser) (ctx : Context) (input : reader) :
  (exists h rest,
      settle (Decompress {| compressor := Some w;
                            decompressor := Some (fun _ => Ok d) |} ctx input)
      = Some h
      /\ List.concat (chunksOf (reads d)) = pipeBytes h ++ rest)
  /\
  (exists h rest,
      settle (Compress {| compressor := Some sameWriter;
                          decompressor := Some (fun _ => Ok d) |} ctx input)
      = Some h
      /\ List.concat (chunksOf input) = pipeBytes h ++ rest).
Proof.
  split.
  - rewrite (settle_Decompress ctx _ _ _ d eq_refl).
    destruct (ioCopy_sameWriter_prefix ctx (reads d) []) as (t & rest & Ht & Hb & _).
    eexists. exists rest. split; [reflexivity|].
    rewrite decompressFunc_run. cbv zeta. rewrite Hb. f_equal.
    destruct (snd (fst (runSink ctx (ioCopy sameWriter tt (reads d)) [])));
      cbn [fst snd]; rewrite Ht; cbn [app];
      rewrite ?pipeBytes_app; cbn [pipeBytes]; now rewrite ?app_nil_r.
  - rewrite settle_Compress.
    destruct (ioCopy_sameWriter_prefix ctx input []) as (t & rest & Ht & Hb & _).
    eexists. exists rest. split; [reflexivity|].
    rewrite compressFunc_run. cbv zeta. rewrite Hb. f_equal.
    cbn [sameWriter Close winit runSink ctxClose fst snd] in *.
    destruct (snd (fst (runSink ctx (ioCopy sameWriter tt input) [])));
      cbn [fst snd]; rewrite Ht; cbn [app];
      rewrite ?pipeBytes_app; cbn [pipeBytes]; now rewrite ?app_nil_r.
Qed.

(** X4: Under a context that is never cancelled, a nil error from
    [Decompress] means the whole decompressed stream was delivered and the
    pipe closed: a caller that reads the output to its end and then the
    channel gets all of it; the decompressor's reads ended with [io.EOF]
    and its [Close] returned nil. *)
Theorem Decompress_nil_means_complete
    (w : WriteCloser) (d : ReadCloser) (input : reader) :
  deposited (Decompress {| compressor := Some w;
                           decompressor := Some (fun _ => Ok d) |} Background input)
  = Some None ->
  exists h,
    settle (Decompress {| compressor := Some w;
                          decompressor := Some (fun _ => Ok d) |} Background input)
    = Some h
    /\ drainThenReceive h = Finished (List.concat (chunksOf (reads d))) None
    /\ endOf (reads d) = None
    /\ closeErr d = None.
Proof.
  unfold deposited.
  rewrite (settle_Decompress Background _ _ _ d eq_refl).
  rewrite chanRecv_last by apply runSink_chanBuf.
  rewrite decompressFunc_run. cbv zeta.
  rewrite ioCopy_sameWriter by reflexivity. cbn [fst snd app].
  destruct (endOf (reads d)) as [e|]; [discriminate|].
  destruct (closeErr d) as [e|]; [discriminate|].
  cbn [firstError fst snd]. intros _.
  eexists. split; [reflexivity|]. repeat split.
  rewrite drainThenReceive_closed.
  - now rewrite pipeBytes_app, pipeBytes_Wrote, app_nil_r.
  - rewrite pipeClosed_app. apply orb_true_r.
  - now rewrite chanBuf_app, chanBuf_Wrote.
Qed.

Lemma Decompress_nil_means_complete_foo :
  deposited (Decompress {| compressor := Some sameWriter;
                           decompressor := Some (fun _ => Ok (NopCloser (readerOf [testData]))) |}
               Background rEOF)
  = Some None
  /\ exists h,
      settle (Decompress {| compressor := Some sameWriter;
                            decompressor := Some (fun _ => Ok (NopCloser (readerOf [testData]))) |}
                Background rEOF)
      = Some h
      /\ drainThenReceive h = Finished testData None.
Proof.
  split; [reflexivity|].
  destruct (Decompress_nil_means_complete sameWriter (NopCloser (readerOf [testData]))
              rEOF eq_refl) as (h & H1 & H2 & _).
  exists h. split; [exact H1 | exact H2].
Defined.

(** X5: Under a context that is never cancelled, a nil error from [Compress]
    with the pass-through compressor means the whole input was delivered
    and the pipe closed: a caller that reads the output to its end and then
    the channel gets all of it, and the input ended with [io.EOF]. *)
Theorem Compress_noop_nil_means_complete
    (newD : option (reader -> result ReadCloser)) (input : reader) :
  deposited (Compress {| compressor := Some sameWriter; decompressor := newD |}
               Background input)
  = Some None ->
  exists h,
    settle (Compress {| compressor := Some sameWriter; decompressor := newD |}
              Background input)
    = Some h
    /\ drainThenReceive h = Finished (List.concat (chunksOf input)) None
    /\ endOf input = None.
Proof.
  unfold deposited. rewrite settle_Compress.
  rewrite chanRecv_last by apply runSink_chanBuf.
  rewrite compressFunc_run. cbv zeta.
  rewrite ioCopy_sameWriter by reflexivity. cbn [fst snd app].
  destruct (endOf input) as [e|]; [discriminate|].
  cbn [sameWriter Close runSink ctxClose fst snd]. intros _.
  eexists. split; [reflexivity|]. repeat split.
  rewrite drainThenReceive_closed.
  - now rewrite !pipeBytes_app, pipeBytes_Wrote, !app_nil_r.
  - rewrite pipeClosed_app. apply orb_true_r.
  - now rewrite !chanBuf_app, chanBuf_Wrote.
Qed.

Lemma Compress_noop_nil_means_complete_foo :
  deposited (Compress noopClient Background (readerOf [testData])) = Some None
  /\ exists h,
      settle (Compress noopClient Background (readerOf [testData])) = Some h
      /\ drainThenReceive h = Finished testData None.
Proof.
  split; [reflexivity|].
  destruct (Compress_noop_nil_means_complete (Decompressor noopConfig)
              (readerOf [testData]) eq_refl) as (h & H1 & H2 & _).
  exists h. split; [exact H1 | exact H2].
Defined.

(** ** pkg/compressor: nothing is written after the close *)

Lemma noWriteAfterClose_Wrote (h : history) (p : bytes) :
  pipeClosed h = false ->
  noWriteAfterClose h = true -> noWriteAfterClose (h ++ [Wrote p]) = true.
Proof.
  induction h as [|[q| |v] h IH]; simpl; intros Hc Hq; auto; discriminate.
Qed.

Lemma noWriteAfterClose_other (h : history) (e : event) :
  isWrote e = false ->
  noWriteAfterClose h = true -> noWriteAfterClose (h ++ [e]) = true.
Proof.
  intros He. induction h as [|[q| |v] h IH]; simpl; intros Hq; auto.
  - destruct e; try discriminate; reflexivity.
  - rewrite forallb_app, Hq. simpl. now rewrite He.
Qed.

(** Code over the write end keeps it so, whatever it does. *)
Lemma runSink_noWriteAfterClose {A : Type} (ctx : Context) (m : sinkM A) (h : history) :
  noWriteAfterClose h = true -> noWriteAfterClose (snd (runSink ctx m h)) = true.
Proof.
  revert h. induction m as [a|p k IH|k IH]; intros h Hq; simpl.
  - exact Hq.
  - pose proof (ctxWrite_adds ctx p h) as Hw.
    destruct (ctxWrite ctx p h) as [r h1]. cbn [snd] in Hw.
    destruct Hw as [-> | (q & Hc & ->)]; [now apply IH|].
    apply IH. now apply noWriteAfterClose_Wrote.
  - apply IH. now apply noWriteAfterClose_other.
Qed.

(** X6: Whatever the compressor, the decompressor, the context and the input:
    in the history of a call no write follows a close of the pipe, so the
    reader of the output never gets bytes after the end of the stream. *)
Theorem no_write_after_close
    (w : WriteCloser) (newD : reader -> result ReadCloser)
    (ctx : Context) (input : reader) :
  (exists h,
      settle (Compress {| compressor := Some w; decompressor := Some newD |} ctx input)
      = Some h
      /\ noWriteAfterClose h = true)
  /\
  (exists h,
      settle (Decompress {| compressor := Some w; decompressor := Some newD |} ctx input)
      = Some h
      /\ noWriteAfterClose h = true).
Proof.
  split.
  - eexists. split; [apply settle_Compress|].
    apply noWriteAfterClose_other; [reflexivity|].
    now apply runSink_noWriteAfterClose.
  - destruct (newD input) as [d|err] eqn:HnewD.
    + eexists. split; [apply (settle_Decompress ctx _ _ _ d HnewD)|].
      apply noWriteAfterClose_other; [reflexivity|].
      now apply runSink_noWriteAfterClose.
    + eexists. split.
      * unfold Decompress. cbn [decompressor]. rewrite HnewD. reflexivity.
      * reflexivity.
Qed.

(** ** pkg/compressor: a write that the context cuts short *)

(** The copy to the write end stops at its first write when the context
    cuts that write short. *)
Lemma ioCopy_cut_short (ctx : Context) (err : error) (taken : nat) (r : reader) :
  hasData r = true ->
  ctx 0 = Some (err, taken) ->
  exists t,
    runSink ctx (ioCopy sameWriter tt r) [] = ((tt, Some err), t)
    /\ pipeClosed t = false.
Proof.
  intros H Hctx. unfold hasData in H.
  induction r as [|e|p next IH]; simpl in H; try discriminate.
  destruct p as [|b p]; [now apply IH|].
  cbn [ioCopy sameWriter Write bind runSink].
  unfold ctxWrite. cbn [List.length pipeClosed existsb orb]. rewrite Hctx.
  change (S (List.length p) <? 0)%nat with false.
  destruct (negb (nonEmpty (firstn taken (b :: p)))); eexists; split; reflexivity.
Qed.

(** X8: When the context is done as [Decompress]'s task makes its first write
    and cuts it short, whatever the read end takes of that write, the task
    reports the context's error, wrapped as "decompressing data", and
    leaves the pipe open; [errors.Is] finds the context's error in it. *)
Theorem Decompress_cancelled_reports_context
    (w : WriteCloser) (d : ReadCloser) (ctx : Context) (err : error) (taken : nat)
    (input : reader) :
  hasData (reads d) = true ->
  ctx 0 = Some (err, taken) ->
  exists h,
    settle (Decompress {| compressor := Some w;
                          decompressor := Some (fun _ => Ok d) |} ctx input)
    = Some h
    /\ chanRecv h = Some (Some (Errorf_w "decompressing data: " err))
    /\ pipeClosed h = false
    /\ Is (Errorf_w "decompressing data: " err) err = true.
Proof.
  intros H Hctx.
  rewrite (settle_Decompress _ _ _ _ d eq_refl), decompressFunc_run. cbv zeta.
  destruct (ioCopy_cut_short ctx err taken (reads d) H Hctx) as (t & Ht & Hopen).
  assert (Hb : chanBuf t = []).
  { pose proof (runSink_chanBuf ctx (ioCopy sameWriter tt (reads d))) as Hc.
    now rewrite Ht in Hc. }
  rewrite Ht. cbn [fst snd].
  eexists. split; [reflexivity|]. repeat split.
  - now apply chanRecv_last.
  - rewrite pipeClosed_app, Hopen. reflexivity.
  - apply Is_Errorf_w.
Qed.

Lemma Decompress_cancelled_reports_context_foo :
  hasData (readerOf [testData]) = true
  /\ cancelled (errorString "context canceled") 0
     = Some (errorString "context canceled", 0)
  /\ exists h,
      settle (Decompress noopClient (cancelled (errorString "context canceled"))
                (readerOf [testData]))
      = Some h
      /\ chanRecv h = Some (Some (Errorf_w "decompressing data: "
                                    (errorString "context canceled"))).
Proof.
  split; [reflexivity|]. split; [reflexivity|].
  destruct (Decompress_cancelled_reports_context sameWriter
              (NopCloser (readerOf [testData])) (cancelled (errorString "context canceled"))
              (errorString "context canceled") 0 (readerOf [testData])
              eq_refl eq_refl) as (h & H1 & H2 & _).
  exists h. split; [exact H1 | exact H2].
Defined.

(** ** pkg/compressor: the error keeps its cause *)

(** X9: An error that [Compress] leaves in the channel wraps the error the
    copy returned or, the copy having succeeded, the one closing the
    compressor returned: [errors.Is] finds it and [Unwrap] gives it. *)
Theorem Compress_error_wraps_cause
    (w : WriteCloser) (newD : option (reader -> result ReadCloser))
    (ctx : Context) (input : reader) (e : error) :
  deposited (Compress {| compressor := Some w; decompressor := newD |} ctx input)
  = Some (Some e) ->
  exists cause,
    (compressCopyErr ctx w input = Some cause
     \/ (compressCopyErr ctx w input = None
         /\ compressCloseErr ctx w input = Some cause))
    /\ Unwrap e = Some cause
    /\ Is e cause = true.
Proof.
  unfold deposited. rewrite settle_Compress.
  rewrite chanRecv_last by apply runSink_chanBuf.
  rewrite compressFunc_run. cbv zeta.
  unfold compressCopyErr, compressCloseErr.
  destruct (snd (fst (runSink ctx (ioCopy w (winit w) input) []))) as [err|].
  - cbn [fst]. intros [= <-]. exists err.
    repeat split; [now left | apply Is_Errorf_w].
  - destruct (snd (fst (runSink ctx (Close w _) _))) as [err|];
      cbn [fst]; [|discriminate].
    intros [= <-]. exists err.
    repeat split; [now right | apply Is_Errorf_w].
Qed.

Lemma Compress_error_wraps_cause_badReader :
  deposited (Compress noopClient Background badReader)
  = Some (Some (Errorf_w "compressing data: " (errorString "reading error")))
  /\ exists cause,
      Unwrap (Errorf_w "compressing data: " (errorString "reading error")) = Some cause
      /\ Is (Errorf_w "compressing data: " (errorString "reading error")) cause = true.
Proof.
  split; [reflexivity|].
  destruct (Compress_error_wraps_cause sameWriter (Decompressor noopConfig)
              Background badReader _ eq_refl) as (cause & _ & H1 & H2).
  exists cause. split; [exact H1 | exact H2].
Defined.

(** ** cli/compressor: one argument *)

Lemma append_assoc (a b c : string) : ((a ++ b) ++ c = a ++ (b ++ c))%string.
Proof. induction a as [|x a IH]; simpl; congruence. Qed.

Lemma prefix_split (s1 s2 : string) :
  String.prefix s1 s2 = true -> exists t, s2 = (s1 ++ t)%string.
Proof.
  revert s2. induction s1 as [|a s1 IH]; intros s2 H.
  - exists s2. reflexivity.
  - destruct s2 as [|b s2]; simpl in H; [discriminate|].
    destruct (ascii_dec a b) as [->|]; [|discriminate].
    destruct (IH s2 H) as [t ->]. exists t. reflexivity.
Qed.

Lemma Split_nonempty (s : string) (sep : ascii) :
  exists seg segs, Split s sep = seg :: segs.
Proof.
  induction s as [|c s (seg & segs & IH)]; simpl.
  - eauto.
  - destruct (Ascii.eqb c sep); [eauto|]. rewrite IH. eauto.
Qed.

Lemma Split_without (s : string) (sep : ascii) :
  without sep s = true -> Split s sep = [s].
Proof.
  induction s as [|c s IH]; simpl; intros H.
  - reflexivity.
  - apply andb_prop in H as [Hc Hs]. apply negb_true_iff in Hc.
    now rewrite Hc, (IH Hs).
Qed.

Lemma Split_append (a rest : string) (sep : ascii) :
  without sep a = true ->
  Split (a ++ String sep rest) sep = a :: Split rest sep.
Proof.
  induction a as [|c a IH]; simpl; intros H.
  - now rewrite Ascii.eqb_refl.
  - apply andb_prop in H as [Hc Ha]. apply negb_true_iff in Hc.
    now rewrite Hc, (IH Ha).
Qed.

Lemma Split_two (a rest : string) (sep : ascii) :
  2 <= List.length (Split (a ++ String sep rest) sep).
Proof.
  induction a as [|c a IH]; simpl.
  - rewrite Ascii.eqb_refl. destruct (Split_nonempty rest sep) as (seg & segs & ->).
    simpl. lia.
  - destruct (Ascii.eqb c sep); simpl; [lia|].
    destruct (Split (a ++ String sep rest) sep) as [|seg segs]; simpl in *; lia.
Qed.

(** X10: When [parseStringArg] returns true, the index 1 it takes of the split
    was in range, and the value it stored is that element: the slice
    expression never panics. *)
Theorem parseStringArg_index_in_range (argument flag v : string) :
  parseStringArg argument flag = Some v ->
  nth_error (Split argument "="%char) 1 = Some v.
Proof.
  unfold parseStringArg.
  destruct (String.prefix (("--" ++ flag) ++ "=") argument) eqn:Hp;
    [|discriminate].
  cbn [negb]. intros [= <-].
  apply prefix_split in Hp as [t ->].
  rewrite append_assoc. cbn [append].
  pose proof (Split_two ("--" ++ flag) t "="%char) as Hlen.
  cbn [append] in Hlen.
  destruct (Split _ _) as [|s0 [|s1 l]]; simpl in *; try lia. reflexivity.
Qed.

Lemma parseStringArg_index_in_range_format :
  parseStringArg "--format=noop" "format" = Some "noop"
  /\ nth_error (Split "--format=noop" "="%char) 1 = Some "noop".
Proof.
  split; [reflexivity|].
  exact (parseStringArg_index_in_range "--format=noop" "format" "noop" eq_refl).
Defined.

Lemma parseStringArg_rest (flag rest : string) :
  without "="%char flag = true ->
  parseStringArg ("--" ++ flag ++ "=" ++ rest) flag
  = Some (nth 0 (Split rest "="%char) EmptyString).
Proof.
  intros Hf. unfold parseStringArg.
  replace ("--" ++ flag ++ "=" ++ rest)%string
    with ((("--" ++ flag) ++ "=") ++ rest)%string
    by (now rewrite !append_assoc).
  rewrite prefix_app. cbn [negb].
  rewrite append_assoc.
  change ("=" ++ rest)%string with (String "="%char rest).
  rewrite Split_append by (cbn; exact Hf).
  reflexivity.
Qed.

Lemma parseStringArg_whole_value (flag v : string) :
  without "="%char flag = true ->
  without "="%char v = true ->
  parseStringArg ("--" ++ flag ++ "=" ++ v) flag = Some v.
Proof.
  intros Hf Hv. rewrite parseStringArg_rest by exact Hf.
  now rewrite Split_without.
Qed.

(** X11: A value without an equals sign comes back as it was written. *)
Theorem parseStringArg_round_trip (flag v : string) :
  without "="%char flag = true ->
  without "="%char v = true ->
  parseStringArg ("--" ++ flag ++ "=" ++ v) flag = Some v.
Proof.
  intros Hf Hv. rewrite parseStringArg_rest by exact Hf.
  rewrite (Split_without v "="%char Hv). reflexivity.
Qed.

Lemma parseStringArg_round_trip_input :
  without "="%char "input" = true
  /\ without "="%char "/tmp/data" = true
  /\ parseStringArg "--input=/tmp/data" "input" = Some "/tmp/data".
Proof.
  split; [reflexivity|]. split; [reflexivity|].
  exact (parseStringArg_round_trip "input" "/tmp/data" eq_refl eq_refl).
Defined.

(** X12: A value with an equals sign in it is cut at that sign: what follows
    is dropped. *)
Theorem parseStringArg_cuts_at_equals (flag v tail : string) :
  without "="%char flag = true ->
  without "="%char v = true ->
  parseStringArg ("--" ++ flag ++ "=" ++ v ++ "=" ++ tail) flag = Some v.
Proof.
  intros Hf Hv. rewrite parseStringArg_rest by exact Hf.
  change ("=" ++ tail)%string with (String "="%char tail).
  now rewrite Split_append.
Qed.

Lemma parseStringArg_cuts_at_equals_input :
  without "="%char "input" = true
  /\ without "="%char "a" = true
  /\ parseStringArg "--input=a=b" "input" = Some "a".
Proof.
  split; [reflexivity|]. split; [reflexivity|].
  exact (parseStringArg_cuts_at_equals "input" "a" "b" eq_refl eq_refl).
Defined.

(** No argument matches two of the flags. *)
Lemma parseStringArg_exclusive (arg v : string) (f g : valueFlag) :
  f <> g ->
  parseStringArg arg (flagName f) = Some v ->
  parseStringArg arg (flagName g) = None.
Proof.
  intros Hfg. unfold parseStringArg.
  destruct (String.prefix (("--" ++ flagName f) ++ "=") arg) eqn:Hp; [|discriminate].
  intros _. apply prefix_split in Hp as [t ->].
  destruct f, g; try (now elim Hfg); reflexivity.
Qed.

Lemma parseValueArgs_order (o o' : mapOrder) (arg : string) (c : Cli) :
  parseValueArgs o arg c = parseValueArgs o' arg c.
Proof.
  unfold parseValueArgs.
  destruct (parseStringArg arg (flagName flagFormat)) as [vf|] eqn:Hf.
  - assert (Hi : parseStringArg arg (flagName flagInput) = None)
      by (apply (parseStringArg_exclusive arg vf flagFormat); [discriminate|assumption]).
    assert (Hc : parseStringArg arg (flagName flagConfig) = None)
      by (apply (parseStringArg_exclusive arg vf flagFormat); [discriminate|assumption]).
    destruct o, o'; cbn [rangeOver parseFirst]; rewrite ?Hf, ?Hi, ?Hc; reflexivity.
  - destruct (parseStringArg arg (flagName flagConfig)) as [vc|] eqn:Hc.
    + assert (Hi : parseStringArg arg (flagName flagInput) = None)
        by (apply (parseStringArg_exclusive arg vc flagConfig); [discriminate|assumption]).
      destruct o, o'; cbn [rangeOver parseFirst]; rewrite ?Hf, ?Hi, ?Hc; reflexivity.
    + destruct o, o'; cbn [rangeOver parseFirst]; rewrite ?Hf, ?Hc;
        destruct (parseStringArg arg (flagName flagInput)); reflexivity.
Qed.

(** X13: [parseValueArgs] ranges over a map, in an order the runtime picks; no
    argument matches two of its keys, so the flag it stores, the value and
    its result are the same in every order. *)
Theorem parseValueArgs_any_order (o o' : mapOrder) (arg : string) (c : Cli) :
  parseValueArgs o arg c = parseValueArgs o' arg c.
Proof.
  unfold parseValueArgs.
  destruct (parseStringArg arg (flagName flagFormat)) as [vf|] eqn:Hf.
  - assert (Hi : parseStringArg arg (flagName flagInput) = None)
      by (apply (parseStringArg_exclusive arg vf flagFormat); [discriminate|assumption]).
    assert (Hc : parseStringArg arg (flagName flagConfig) = None)
      by (apply (parseStringArg_exclusive arg vf flagFormat); [discriminate|assumption]).
    destruct o, o'; cbn [rangeOver parseFirst]; rewrite ?Hf, ?Hi, ?Hc; reflexivity.
  - destruct (parseStringArg arg (flagName flagConfig)) as [vc|] eqn:Hc.
    + assert (Hi : parseStringArg arg (flagName flagInput) = None)
        by (apply (parseStringArg_exclusive arg vc flagConfig); [discriminate|assumption]).
      destruct o, o'; cbn [rangeOver parseFirst]; rewrite ?Hf, ?Hi, ?Hc; reflexivity.
    + destruct o, o'; cbn [rangeOver parseFirst]; rewrite ?Hf, ?Hc;
        destruct (parseStringArg arg (flagName flagInput)); reflexivity.
Qed.

(** ** cli/compressor: the arguments of a run *)

Lemma isValueArg_parse (arg : string) (o : mapOrder) (c : Cli) :
  isValueArg arg = true ->
  exists c1,
    parseValueArgs o arg c = Some c1
    /\ action c1 = action c /\ Args c1 = Args c /\ Output c1 = Output c
    /\ ErrorOutput c1 = ErrorOutput c /\ Input c1 = Input c.
Proof.
  rewrite (parseValueArgs_order o FCI).
  unfold isValueArg, parseValueArgs. cbn [existsb rangeOver parseFirst].
  destruct (parseStringArg arg (flagName flagFormat));
    [intros _; eexists; repeat split|].
  destruct (parseStringArg arg (flagName flagConfig));
    [intros _; eexists; repeat split|].
  destruct (parseStringArg arg (flagName flagInput));
    [intros _; eexists; repeat split | discriminate].
Qed.

Lemma isValueArg_not_special (arg : string) :
  isValueArg arg = true ->
  String.eqb arg "--help" = false
  /\ String.eqb arg ActionCompress = false
  /\ String.eqb arg ActionDecompress = false.
Proof.
  unfold isValueArg, parseStringArg. cbn [existsb flagName].
  destruct (String.prefix (("--" ++ "format") ++ "=") arg) eqn:Hf.
  { intros _. apply prefix_split in Hf as [t ->]. repeat split. }
  destruct (String.prefix (("--" ++ "config") ++ "=") arg) eqn:Hc.
  { intros _. apply prefix_split in Hc as [t ->]. repeat split. }
  destruct (String.prefix (("--" ++ "input") ++ "=") arg) eqn:Hi.
  { intros _. apply prefix_split in Hi as [t ->]. repeat split. }
  discriminate.
Qed.

Section Arguments.

Variable quoteNonASCII : string -> string.
Variable sys : System.
Variable all : list string.

(** Value flags are consumed one after the other; they leave the action,
    the arguments and the streams of the receiver alone, and print
    nothing. *)
Lemma parseLoop_values (vs : list string) :
  forallb isValueArg vs = true ->
  forall (i : nat) (c : Cli) (con : Console),
  exists c1,
    (forall rest,
        parseLoop quoteNonASCII sys all i (vs ++ rest) c con
        = parseLoop quoteNonASCII sys all (i + List.length vs) rest c1 con)
    /\ action c1 = action c /\ Args c1 = Args c /\ Output c1 = Output c
    /\ ErrorOutput c1 = ErrorOutput c /\ Input c1 = Input c.
Proof.
  induction vs as [|arg vs IH]; intros Hvs i c con.
  - exists c. rewrite Nat.add_0_r. repeat split.
  - cbn [forallb] in Hvs. apply andb_prop in Hvs as [Harg Hvs].
    destruct (isValueArg_not_special arg Harg) as (Hh & Hc & Hd).
    destruct (isValueArg_parse arg (rangeOrder sys i) c Harg)
      as (c1 & Hp & Ha & Hargs & Ho & He & Hin).
    destruct (IH Hvs (S i) c1 con) as (c2 & Hloop & Ha2 & Hargs2 & Ho2 & He2 & Hin2).
    exists c2. split.
    + intros rest. cbn [app parseLoop List.length].
      rewrite Hh, Hc, Hd. cbn [orb]. rewrite Hp, Hloop.
      now rewrite Nat.add_succ_r.
    + repeat split; congruence.
Qed.

(** The counter of the ranges and the orders the runtime picks do not
    change what the loop does. *)
Lemma parseLoop_any_order (sys' : System) (args : list string) :
  Args0 sys' = Args0 sys ->
  forall (i j : nat) (c : Cli) (con : Console),
    parseLoop quoteNonASCII sys' all i args c con
    = parseLoop quoteNonASCII sys all j args c con.
Proof.
  intros H0. induction args as [|arg args IH]; intros i j c con.
  - reflexivity.
  - cbn [parseLoop].
    destruct (String.eqb arg "--help"); [reflexivity|].
    destruct (String.eqb arg ActionCompress || String.eqb arg ActionDecompress).
    + destruct (negb (String.eqb (action c) "")); [reflexivity | apply IH].
    + rewrite (parseValueArgs_order (rangeOrder sys' i) (rangeOrder sys j)).
      destruct (parseValueArgs (rangeOrder sys j) arg c); [apply IH|].
      now rewrite H0.
Qed.

End Arguments.

(** ** cli/compressor: a run *)

Section Running.

Variable gzipNewWriter : WriteCloser.
Variable gzipNewReader : reader -> result ReadCloser.
Variable quoteNonASCII : string -> string.
Variable sys : System.
Variable ctx : Context.

(** X14: Go ranges over the map of flags in an order of its choosing; what a
    run returns, leaves in its receiver and prints does not depend on
    it. *)
Theorem Run_any_range_order (o : nat -> mapOrder) (c : Cli) (con : Console) :
  Run gzipNewWriter gzipNewReader quoteNonASCII (withRangeOrder o sys) ctx c con
  = Run gzipNewWriter gzipNewReader quoteNonASCII sys ctx c con.
Proof.
  unfold Run. destruct (Cli_validate c); [reflexivity|].
  unfold parseArgs. cbn [Args setConfigPath setFormat withRangeOrder Getenv].
  destruct (Args c) as [|prog rest]; [reflexivity|].
  rewrite (parseLoop_any_order quoteNonASCII sys (prog :: rest)
             (withRangeOrder o sys) rest eq_refl 0 0).
  reflexivity.
Qed.

Lemma isAction_not_help (arg : string) :
  isAction arg = true -> String.eqb arg "--help" = false.
Proof.
  unfold isAction. intros H. apply orb_prop in H as [H|H];
    apply String.eqb_eq in H; subst; reflexivity.
Qed.

(** What the loop of [parseArgs] does with arguments that are in order. *)
Lemma parseLoop_ok (all pre : list string) :
  forall (i : nat) (c : Cli) (con : Console),
  okArgs (negb (String.eqb (action c) "")) pre = true ->
  exists c1 j,
    (forall rest,
        parseLoop quoteNonASCII sys all i (pre ++ rest) c con
        = parseLoop quoteNonASCII sys all j rest c1 con)
    /\ Args c1 = Args c /\ Output c1 = Output c
    /\ ErrorOutput c1 = ErrorOutput c /\ Input c1 = Input c
    /\ negb (String.eqb (action c1) "")
       = negb (String.eqb (action c) "") || existsb isAction pre
    /\ (existsb isAction pre = false -> action c1 = action c)
    /\ (existsb isAction pre = true -> isAction (action c1) = true).
Proof.
  induction pre as [|arg pre IH]; intros i c con Hok.
  - exists c, i. rewrite orb_false_r. repeat split. discriminate.
  - cbn [okArgs] in Hok.
    destruct (isValueArg arg) eqn:Hv.
    + destruct (isValueArg_not_special arg Hv) as (Hh & Hc & Hd).
      destruct (isValueArg_parse arg (rangeOrder sys i) c Hv)
        as (c1 & Hp & Ha & Hargs & Ho & He & Hin).
      rewrite <- Ha in Hok.
      destruct (IH (S i) c1 con Hok)
        as (c2 & j & Hloop & Hargs2 & Ho2 & He2 & Hin2 & Hseen & Hsame & Hact).
      exists c2, j.
      assert (Hna : isAction arg = false) by (unfold isAction; now rewrite Hc, Hd).
      cbn [existsb]. rewrite Hna. cbn [orb]. rewrite Ha in Hseen, Hsame.
      split; [|repeat split; try congruence; auto].
      intros rest. cbn [app parseLoop]. rewrite Hh, Hc, Hd. cbn [orb].
      now rewrite Hp, Hloop.
    + destruct (isAction arg) eqn:Hact; [|discriminate].
      apply andb_prop in Hok as [Hseen Hok]. rewrite negb_involutive in Hseen.
      assert (Hne : negb (String.eqb (action (setAction arg c)) "") = true).
      { cbn [setAction action]. unfold isAction in Hact.
        apply orb_prop in Hact as [H|H]; apply String.eqb_eq in H; subst; reflexivity. }
      rewrite <- Hne in Hok at 1.
      destruct (IH i (setAction arg c) con Hok)
        as (c2 & j & Hloop & Hargs2 & Ho2 & He2 & Hin2 & Hseen2 & Hsame & Hact2).
      exists c2, j. cbn [existsb]. rewrite Hact. cbn [orb].
      rewrite orb_true_r.
      split; [|repeat split; try assumption].
      * intros rest. cbn [app parseLoop].
        rewrite (isAction_not_help arg Hact).
        unfold isAction in Hact. rewrite Hact, Hseen. cbn [negb].
        apply Hloop.
      * rewrite Hseen2, Hne. reflexivity.
      * discriminate.
      * intros _. destruct (existsb isAction pre) eqn:Hex.
        -- now apply Hact2.
        -- rewrite (Hsame eq_refl). exact Hact.
Qed.

(** X15: A run whose arguments are in order up to [--help] prints the usage on
    [Output] and returns nil.  Nothing after [--help] is looked at, the
    environment apart nothing outside is read, and nothing goes to
    [ErrorOutput]. *)
Theorem help_wins (prog : string) (pre post : list string) (out err : Writer)
    (input : option reader) (con : Console) :
  okArgs false pre = true ->
  exists c1,
    Run gzipNewWriter gzipNewReader quoteNonASCII sys ctx
      (newCli (prog :: pre ++ "--help" :: post) (Some out) (Some err) input) con
    = (Returned None, c1, snd (writeOut out (Line (usage (Args0 sys))) con)).
Proof.
  intros Hok. unfold Run, parseArgs.
  cbn [Cli_validate newCli Output ErrorOutput Args setConfigPath setFormat].
  match goal with
  | |- context [parseLoop _ _ ?a 0 _ ?c con] =>
      destruct (parseLoop_ok a pre 0 c con Hok)
        as (c1 & j & Hloop & _ & Ho & _); rewrite Hloop
  end.
  cbn [parseLoop String.eqb Ascii.eqb Bool.eqb andb].
  cbn [action setAction String.eqb Ascii.eqb Bool.eqb andb].
  unfold printOut. cbn [setAction Output]. rewrite Ho. cbn [Output].
  eexists. reflexivity.
Qed.


(** X16: A run without an action among its arguments, only value flags, prints
    the usage once on [ErrorOutput], nothing on [Output], and returns the
    error "no action specified". *)
Theorem no_action_is_an_error (prog : string) (vs : list string) (out err : Writer)
    (input : option reader) (con : Console) :
  forallb isValueArg vs = true ->
  exists c1,
    Run gzipNewWriter gzipNewReader quoteNonASCII sys ctx
      (newCli (prog :: vs) (Some out) (Some err) input) con
    = (Returned (Some (errorString "no action specified")), c1,
       snd (writeErr err (Line (usage (Args0 sys))) con)).
Proof.
  intros Hvs. unfold Run, parseArgs.
  cbn [Cli_validate newCli Output ErrorOutput Args setConfigPath setFormat].
  match goal with
  | |- context [parseLoop _ _ ?a 0 _ ?c con] =>
      destruct (parseLoop_values quoteNonASCII sys a vs Hvs 0 c con)
        as (c1 & Hloop & Ha & _ & _ & He & _);
      specialize (Hloop []); rewrite app_nil_r in Hloop; rewrite Hloop
  end.
  cbn [parseLoop]. rewrite Ha. cbn [action String.eqb orb].
  unfold printErr. rewrite He. cbn [ErrorOutput].
  eexists. reflexivity.
Qed.

Lemma isValueArg_false_parse (arg : string) (o : mapOrder) (c : Cli) :
  isValueArg arg = false -> parseValueArgs o arg c = None.
Proof.
  rewrite (parseValueArgs_order o FCI).
  unfold isValueArg, parseValueArgs. cbn [existsb rangeOver parseFirst].
  destruct (parseStringArg arg (flagName flagFormat)); [discriminate|].
  destruct (parseStringArg arg (flagName flagConfig)); [discriminate|].
  destruct (parseStringArg arg (flagName flagInput)); [discriminate|].
  reflexivity.
Qed.

(** X17: A run that meets an argument it does not know, the arguments before
    being in order, prints the usage once on [ErrorOutput], nothing on
    [Output], and returns an error that quotes the argument and lists all
    of them; what follows the argument is not looked at. *)
Theorem unknown_argument_is_an_error (prog bad : string) (pre post : list string)
    (out err : Writer) (input : option reader) (con : Console) :
  okArgs false pre = true ->
  isValueArg bad = false -> isAction bad = false -> String.eqb bad "--help" = false ->
  exists c1,
    Run gzipNewWriter gzipNewReader quoteNonASCII sys ctx
      (newCli (prog :: pre ++ bad :: post) (Some out) (Some err) input) con
    = (Returned (Some (Errorf_w "parsing arguments: "
         (errorString ("unknown argument " ++ quote quoteNonASCII bad ++ ": "
                         ++ fmtStrings (prog :: pre ++ bad :: post))))),
       c1, snd (writeErr err (Line (usage (Args0 sys))) con)).
Proof.
  intros Hok Hv Hact Hhelp. unfold Run, parseArgs.
  cbn [Cli_validate newCli Output ErrorOutput Args setConfigPath setFormat].
  match goal with
  | |- context [parseLoop _ _ ?a 0 _ ?c con] =>
      destruct (parseLoop_ok a pre 0 c con Hok)
        as (c1 & j & Hloop & _ & _ & He & _); rewrite Hloop
  end.
  cbn [parseLoop]. rewrite Hhelp. unfold isAction in Hact. rewrite Hact.
  rewrite (isValueArg_false_parse bad _ c1 Hv).
  unfold printErr. rewrite He. cbn [ErrorOutput].
  eexists. reflexivity.
Qed.

(** X18: A run with a second action among its arguments returns the error
    "action already specified" and prints nothing. *)
Theorem second_action_is_an_error (prog act : string) (pre post : list string)
    (out err : Writer) (input : option reader) (con : Console) :
  okArgs false pre = true ->
  existsb isAction pre = true ->
  isAction act = true ->
  exists c1,
    Run gzipNewWriter gzipNewReader quoteNonASCII sys ctx
      (newCli (prog :: pre ++ act :: post) (Some out) (Some err) input) con
    = (Returned (Some (Errorf_w "parsing arguments: "
                         (errorString "action already specified"))),
       c1, con).
Proof.
  intros Hok Hex Hact. unfold Run, parseArgs.
  cbn [Cli_validate newCli Output ErrorOutput Args setConfigPath setFormat].
  match goal with
  | |- context [parseLoop _ _ ?a 0 _ ?c con] =>
      destruct (parseLoop_ok a pre 0 c con Hok)
        as (c1 & j & Hloop & _ & _ & _ & _ & Hseen & _); rewrite Hloop
  end.
  rewrite Hex, orb_true_r in Hseen.
  cbn [parseLoop]. rewrite (isAction_not_help act Hact).
  unfold isAction in Hact. rewrite Hact, Hseen.
  eexists. reflexivity.
Qed.

Lemma parse_format_flag (v : string) (o : mapOrder) (c : Cli) :
  without "="%char v = true ->
  isValueArg ("--format=" ++ v) = true
  /\ parseValueArgs o ("--format=" ++ v) c = Some (setFormat v c).
Proof.
  intros Hv.
  pose proof (parseStringArg_whole_value "format" v eq_refl Hv) as Hrt.
  cbn [append] in Hrt. split.
  - unfold isValueArg. cbn [existsb flagName append]. now rewrite Hrt.
  - rewrite (parseValueArgs_order o FCI). unfold parseValueArgs.
    cbn [rangeOver parseFirst flagName append]. now rewrite Hrt.
Qed.


(** Whatever [runAction] goes on to do, it leaves the receiver as
    [readConfig] left it. *)
Lemma runAction_receiver (c : Cli) (con : Console) :
  snd (fst (runAction gzipNewWriter gzipNewReader quoteNonASCII sys ctx c con))
  = snd (readConfig quoteNonASCII sys c).
Proof.
  unfold runAction.
  destruct (readConfig quoteNonASCII sys c) as [[e|] c1]; [reflexivity|].
  destruct (selectUserInput quoteNonASCII sys c1 (Input c1)); [|reflexivity].
  destruct (NewClient _ _ _ _); [|reflexivity].
  destruct (if String.eqb (action c1) ActionCompress then _ else _)
    as [[| |s]|]; try reflexivity.
  destruct (settle (Returns s)); [|reflexivity].
  destruct (copyOut ctx (Output c1) _ 0 con) as [[|e| |] con1]; try reflexivity.
  destruct (chanRecv _) as [[e|]|]; reflexivity.
Qed.

Lemma isAction_not_helpword (act : string) :
  isAction act = true -> String.eqb act "help" = false.
Proof.
  unfold isAction. intros H. apply orb_prop in H as [H|H];
    apply String.eqb_eq in H; subst; reflexivity.
Qed.


Lemma Is_wrapped (prefix : string) (inner target : error) :
  Is inner target = true -> Is (Errorf_w prefix inner) target = true.
Proof. intros H. unfold Errorf_w. cbn [Is]. rewrite H. apply orb_true_r. Qed.

(** X21: A configuration file that is there but cannot be read fails the run,
    also when the format is given on the command line: the error wraps the
    one of the read, nothing is printed, the input is not touched. *)
Theorem unreadable_config_fails_the_run (prog act v : string) (e : error)
    (out err : Writer) (input : option reader) (con : Console) :
  isAction act = true ->
  without "="%char v = true ->
  ReadFile sys DefaultConfigPath = fileError e ->
  exists c1 e1,
    Run gzipNewWriter gzipNewReader quoteNonASCII sys ctx
      (newCli [prog; act; ("--format=" ++ v)%string] (Some out) (Some err) input) con
    = (Returned (Some e1), c1, con)
    /\ Is e1 e = true.
Proof.
  intros Hact Hv Hread.
  pose proof (isAction_not_help act Hact) as Hnh.
  pose proof (isAction_not_helpword act Hact) as Hnw.
  pose proof Hact as Hact'. unfold isAction in Hact'.
  unfold Run, parseArgs.
  cbn [Cli_validate newCli Output ErrorOutput Args setConfigPath setFormat
       parseLoop action].
  rewrite Hnh, Hact'. cbn [String.eqb negb].
  match goal with
  | |- context [parseValueArgs ?o _ ?c] =>
      destruct (parse_format_flag v o c Hv) as [Hva Hp]
  end.
  destruct (isValueArg_not_special _ Hva) as (Hh & Hc & Hd).
  rewrite Hh, Hc, Hd. cbn [orb]. rewrite Hp.
  cbn [setFormat setAction action]. rewrite Hnw, Hact'.
  unfold runAction, readConfig.
  cbn [configPath setAction setConfigPath setFormat newCli]. rewrite Hread.
  eexists _, _. split; [reflexivity|].
  apply Is_wrapped, Is_Errorf_w.
Qed.

(** The histories of the pass-through client under a context that is never
    cancelled. *)
Lemma Compress_noop_history (r : reader) :
  exists s,
    Compress noopClient Background r = Returns s
    /\ settle (Returns s)
       = Some (map Wrote (filter nonEmpty (chunksOf r))
               ++ match endOf r with
                  | None => [ClosedPipe; ClosedPipe; Sent None]
                  | Some e => [Sent (Some (Errorf_w "compressing data: " e))]
                  end).
Proof.
  eexists. split; [reflexivity|].
  change (settle (Compress noopClient Background r) = Some
    (map Wrote (filter nonEmpty (chunksOf r)) ++
     match endOf r with
     | None => [ClosedPipe; ClosedPipe; Sent None]
     | Some e => [Sent (Some (Errorf_w "compressing data: " e))]
     end)).
  unfold noopClient. cbn [noopConfig Compressor Decompressor].
  rewrite settle_Compress, compressFunc_run. cbv zeta.
  rewrite ioCopy_sameWriter by reflexivity. cbn [fst snd app].
  destruct (endOf r); cbn [sameWriter Close runSink ctxClose fst snd];
    now rewrite <- ?app_assoc.
Qed.

Lemma Decompress_noop_history (r : reader) :
  exists s,
    Decompress noopClient Background r = Returns s
    /\ settle (Returns s)
       = Some (map Wrote (filter nonEmpty (chunksOf r))
               ++ match endOf r with
                  | None => [ClosedPipe; Sent None]
                  | Some e => [Sent (Some (Errorf_w "decompressing data: " e))]
                  end).
Proof.
  eexists. split; [reflexivity|].
  change (settle (Decompress noopClient Background r) = Some
    (map Wrote (filter nonEmpty (chunksOf r)) ++
     match endOf r with
     | None => [ClosedPipe; Sent None]
     | Some e => [Sent (Some (Errorf_w "decompressing data: " e))]
     end)).
  unfold noopClient. cbn [noopConfig Compressor Decompressor].
  rewrite (settle_Decompress Background _ _ _ (NopCloser r)) by reflexivity.
  rewrite decompressFunc_run. cbv zeta. cbn [NopCloser reads closeErr].
  rewrite ioCopy_sameWriter by reflexivity. cbn [fst snd app firstError].
  destruct (endOf r); cbn [fst snd]; now rewrite <- ?app_assoc.
Qed.

(** The pieces a write is read in carry its bytes. *)
Lemma concat_piecesOf (size fuel : nat) :
  forall p : bytes,
    0 < size -> List.length p <= fuel -> List.concat (piecesOf fuel size p) = p.
Proof.
  induction fuel as [|fuel IH]; intros p Hs Hl.
  - destruct p; [reflexivity | simpl in Hl; lia].
  - destruct p as [|b p]; [reflexivity|].
    cbn [piecesOf List.concat]. rewrite IH; [apply firstn_skipn | exact Hs |].
    rewrite length_skipn. cbn [List.length] in *. lia.
Qed.

Lemma concat_pieces_of_write (p : bytes) :
  List.concat (piecesOf (List.length p) copyBufferSize p) = p.
Proof.
  apply concat_piecesOf; [|apply Nat.le_refl].
  unfold copyBufferSize. apply Nat.mul_pos_pos; apply Nat.lt_0_succ.
Qed.

(** A writer that accepts everything gets every piece. *)
Lemma writePieces_accepting (l : list bytes) :
  forall con : Console,
    writePieces accepting l con
    = (None,
       {| outCalls := outCalls con + List.length l;
          outLog := outLog con ++ map Raw l;
          errCalls := errCalls con; errLog := errLog con |}).
Proof.
  induction l as [|q l IH]; intros con.
  - cbn. rewrite Nat.add_0_r, app_nil_r. now destruct con.
  - cbn [writePieces]. unfold writeOut. cbn [accepting]. rewrite IH.
    cbn [outCalls outLog errCalls errLog List.length map].
    now rewrite <- app_assoc, Nat.add_succ_r.
Qed.


(** A writer that accepts everything gets the bytes of every write, in
    pieces, up to the event that stops the copy. *)
Lemma copyOut_accepting_until (l : list bytes) (stop : history) (r : copyResult) :
  (forall i con, copyOut Background (Some accepting) stop i con = (r, con)) ->
  forall (i : nat) (con : Console),
    exists pieces,
      copyOut Background (Some accepting) (map Wrote l ++ stop) i con
      = (r,
         {| outCalls := outCalls con + List.length pieces;
            outLog := outLog con ++ map Raw pieces;
            errCalls := errCalls con; errLog := errLog con |})
      /\ List.concat pieces = List.concat l.
Proof.
  intros Hstop. induction l as [|p l IH]; intros i con.
  - exists []. cbn [map app List.length List.concat]. rewrite Hstop.
    rewrite Nat.add_0_r, app_nil_r. now destruct con.
  - cbn [map app copyOut Background]. destruct (nonEmpty p) eqn:Hp.
    + rewrite writePieces_accepting.
      match goal with
      | |- context [copyOut _ _ _ (S i) ?c] => destruct (IH (S i) c) as (pieces & -> & Hc)
      end.
      exists (piecesOf (List.length p) copyBufferSize p ++ pieces).
      cbn [outCalls outLog errCalls errLog].
      rewrite length_app, map_app, concat_app, Hc, concat_pieces_of_write.
      now rewrite app_assoc, Nat.add_assoc.
    + destruct p; [|discriminate].
      destruct (IH (S i) con) as (pieces & -> & Hc). now exists pieces.
Qed.

Lemma copyOut_accepting (l : list bytes) (post : history) :
  forall (i : nat) (con : Console),
    exists pieces,
      copyOut Background (Some accepting) (map Wrote l ++ ClosedPipe :: post) i con
      = (copyDone,
         {| outCalls := outCalls con + List.length pieces;
            outLog := outLog con ++ map Raw pieces;
            errCalls := errCalls con; errLog := errLog con |})
      /\ List.concat pieces = List.concat l.
Proof. now apply copyOut_accepting_until. Qed.

(** [runAction] with the format "noop", the configuration and the input
    being settled, and with an [Output] that accepts everything: the
    writes on [Output] carry the bytes of the input. *)
Lemma runAction_noop (c : Cli) (con : Console) (chunks : list bytes) :
  isAction (action c) = true ->
  cliFormat c = FormatNoop ->
  Output c = Some accepting ->
  readConfig quoteNonASCII sys c = (None, c) ->
  selectUserInput quoteNonASCII sys c (Input c) = Ok (readerOf chunks) ->
  exists pieces,
    runAction gzipNewWriter gzipNewReader quoteNonASCII sys Background c con
    = (Returned None, c,
       {| outCalls := outCalls con + List.length pieces;
          outLog := outLog con ++ map Raw pieces;
          errCalls := errCalls con; errLog := errLog con |})
    /\ List.concat pieces = List.concat chunks.
Proof.
  intros Hact Hfmt Hout Hcfg Hin. unfold runAction.
  rewrite Hcfg, Hin, Hfmt, NewClient_noop, Hout.
  unfold isAction in Hact.
  destruct (String.eqb (action c) ActionCompress).
  - destruct (Compress_noop_history (readerOf chunks)) as (s & -> & ->).
    rewrite concat_chunksOf, endOf_readerOf.
    match goal with
    | |- context [copyOut _ _ (map Wrote ?l ++ ClosedPipe :: ?post) ?i ?k] =>
        destruct (copyOut_accepting l post i k) as (pieces & -> & Hc)
    end.
    exists pieces. rewrite Hc, concat_filter_nonEmpty.
    unfold chanRecv. rewrite chanBuf_app, chanBuf_Wrote. now split.
  - cbn [orb] in Hact. rewrite Hact.
    destruct (Decompress_noop_history (readerOf chunks)) as (s & -> & ->).
    rewrite concat_chunksOf, endOf_readerOf.
    match goal with
    | |- context [copyOut _ _ (map Wrote ?l ++ ClosedPipe :: ?post) ?i ?k] =>
        destruct (copyOut_accepting l post i k) as (pieces & -> & Hc)
    end.
    exists pieces. rewrite Hc, concat_filter_nonEmpty.
    unfold chanRecv. rewrite chanBuf_app, chanBuf_Wrote. now split.
Qed.

(** X22: Without a configuration file and with [--format=noop], [compress] and
    [decompress] copy the standard input to [Output]: the writes on
    [Output], in pieces of the copy's own making, carry the bytes of the
    input in their order and nothing else; nothing is printed on
    [ErrorOutput] and the run returns nil. *)
Theorem Run_noop_copies_stdin (prog act : string) (cfg : FileConfig)
    (err : Writer) (chunks : list bytes) :
  isAction act = true ->
  ReadFile sys DefaultConfigPath = fileNotExist ->
  Unmarshal sys [] = Ok cfg ->
  exists c1 pieces,
    Run gzipNewWriter gzipNewReader quoteNonASCII sys Background
      (newCli [prog; act; "--format=noop"] (Some accepting) (Some err)
         (Some (readerOf chunks)))
      emptyConsole
    = (Returned None, c1,
       {| outCalls := List.length pieces; outLog := map Raw pieces;
          errCalls := 0; errLog := [] |})
    /\ List.concat pieces = List.concat chunks.
Proof.
  intros Hact Hread Hdec.
  pose proof (isAction_not_help act Hact) as Hnh.
  pose proof (isAction_not_helpword act Hact) as Hnw.
  pose proof Hact as Hact'. unfold isAction in Hact'.
  unfold Run, parseArgs.
  cbn [Cli_validate newCli Output ErrorOutput Args setConfigPath setFormat
       parseLoop action].
  rewrite Hnh, Hact'. rewrite (String.eqb_refl ""). cbn [negb].
  match goal with
  | |- context [parseValueArgs ?o _ ?c] =>
      destruct (parse_format_flag "noop" o c eq_refl) as [Hva Hp]
  end.
  cbn [append] in Hva, Hp.
  destruct (isValueArg_not_special _ Hva) as (Hh & Hc & Hd).
  rewrite ?Hh, ?Hc, ?Hd. cbn [orb]. rewrite Hp.
  cbn [setFormat setAction action]. rewrite Hnw, Hact'.
  match goal with
  | |- context [runAction _ _ _ _ _ ?c _] =>
      destruct (runAction_noop c emptyConsole chunks) as (pieces & Hrun & Hcat);
        try reflexivity
  end.
  - exact Hact.
  - unfold readConfig.
    cbn [configPath cliFormat setAction setConfigPath setFormat setInputPath newCli].
    now rewrite Hread, Hdec.
  - eexists _, pieces. split; [rewrite Hrun; reflexivity | exact Hcat].
Qed.

Lemma parse_input_flag (v : string) (o : mapOrder) (c : Cli) :
  without "="%char v = true ->
  isValueArg ("--input=" ++ v) = true
  /\ parseValueArgs o ("--input=" ++ v) c = Some (setInputPath v c).
Proof.
  intros Hv.
  pose proof (parseStringArg_whole_value "input" v eq_refl Hv) as Hrt.
  cbn [append] in Hrt.
  assert (Hf : parseStringArg ("--input=" ++ v) (flagName flagFormat) = None)
    by (apply (parseStringArg_exclusive _ v flagInput); [discriminate | exact Hrt]).
  assert (Hc : parseStringArg ("--input=" ++ v) (flagName flagConfig) = None)
    by (apply (parseStringArg_exclusive _ v flagInput); [discriminate | exact Hrt]).
  cbn [append] in Hf, Hc. split.
  - unfold isValueArg. cbn [existsb flagName append] in *. now rewrite Hf, Hc, Hrt.
  - rewrite (parseValueArgs_order o FCI). unfold parseValueArgs.
    cbn [rangeOver parseFirst flagName append] in *. now rewrite Hf, Hc, Hrt.
Qed.

(** X23: With [--input=path], the path not being empty, the file is what gets
    processed: the standard input, given or not, is not read, and the
    writes on [Output] carry the bytes of the file. *)
Theorem input_file_replaces_stdin (prog act path : string) (cfg : FileConfig)
    (err : Writer) (stdin : option reader) (chunks : list bytes) :
  isAction act = true ->
  without "="%char path = true ->
  path <> "" ->
  ReadFile sys DefaultConfigPath = fileNotExist ->
  Unmarshal sys [] = Ok cfg ->
  Open sys path = Ok (readerOf chunks) ->
  exists c1 pieces,
    Run gzipNewWriter gzipNewReader quoteNonASCII sys Background
      (newCli [prog; act; "--format=noop"; ("--input=" ++ path)%string]
         (Some accepting) (Some err) stdin)
      emptyConsole
    = (Returned None, c1,
       {| outCalls := List.length pieces; outLog := map Raw pieces;
          errCalls := 0; errLog := [] |})
    /\ List.concat pieces = List.concat chunks.
Proof.
  intros Hact Hpath Hne Hread Hdec Hopen.
  pose proof (isAction_not_help act Hact) as Hnh.
  pose proof (isAction_not_helpword act Hact) as Hnw.
  pose proof Hact as Hact'. unfold isAction in Hact'.
  unfold Run, parseArgs.
  cbn [Cli_validate newCli Output ErrorOutput Args setConfigPath setFormat
       parseLoop action].
  rewrite Hnh, Hact'. rewrite (String.eqb_refl ""). cbn [negb append].
  match goal with
  | |- context [parseValueArgs ?o "--format=noop" ?c] =>
      destruct (parse_format_flag "noop" o c eq_refl) as [Hva Hp]
  end.
  cbn [append] in Hva, Hp.
  destruct (isValueArg_not_special _ Hva) as (Hh & Hc & Hd).
  rewrite ?Hh, ?Hc, ?Hd. cbn [orb]. rewrite Hp.
  match goal with
  | |- context [parseValueArgs ?o _ ?c] =>
      destruct (parse_input_flag path o c Hpath) as [Hva2 Hp2]
  end.
  cbn [append] in Hva2, Hp2.
  destruct (isValueArg_not_special _ Hva2) as (Hh2 & Hc2 & Hd2).
  rewrite ?Hh2, ?Hc2, ?Hd2. cbn [orb]. rewrite Hp2.
  cbn [setFormat setAction setInputPath action]. rewrite Hnw, Hact'.
  apply String.eqb_neq in Hne.
  match goal with
  | |- context [runAction _ _ _ _ _ ?c _] =>
      destruct (runAction_noop c emptyConsole chunks) as (pieces & Hrun & Hcat);
        try reflexivity
  end.
  - exact Hact.
  - unfold readConfig.
    cbn [configPath cliFormat setAction setConfigPath setFormat setInputPath newCli].
    now rewrite Hread, Hdec.
  - unfold selectUserInput.
    cbn [inputPath Input setAction setConfigPath setFormat setInputPath newCli].
    now rewrite Hne, Hopen.
  - eexists _, pieces. split; [rewrite Hrun; reflexivity | exact Hcat].
Qed.


Lemma parseValueArgs_keeps (o : mapOrder) (arg : string) (c c1 : Cli) :
  parseValueArgs o arg c = Some c1 ->
  Output c1 = Output c /\ ErrorOutput c1 = ErrorOutput c.
Proof.
  rewrite (parseValueArgs_order o FCI).
  unfold parseValueArgs. cbn [rangeOver parseFirst].
  destruct (parseStringArg arg (flagName flagFormat)); [intros [= <-]; now split|].
  destruct (parseStringArg arg (flagName flagConfig)); [intros [= <-]; now split|].
  destruct (parseStringArg arg (flagName flagInput)); [intros [= <-]; now split|].
  discriminate.
Qed.

(** The loop of [parseArgs] does not panic when there is an
    [ErrorOutput], and leaves the two outputs of the receiver in place. *)
Lemma parseLoop_safe (all args : list string) :
  forall (i : nat) (c : Cli) (con : Console),
    ErrorOutput c <> None ->
    isPanicked (fst (fst (parseLoop quoteNonASCII sys all i args c con))) = false
    /\ Output (snd (fst (parseLoop quoteNonASCII sys all i args c con))) = Output c
    /\ ErrorOutput (snd (fst (parseLoop quoteNonASCII sys all i args c con)))
       = ErrorOutput c.
Proof.
  induction args as [|arg args IH]; intros i c con He.
  - repeat split.
  - cbn [parseLoop].
    destruct (String.eqb arg "--help"); [repeat split|].
    destruct (String.eqb arg ActionCompress || String.eqb arg ActionDecompress).
    + destruct (negb (String.eqb (action c) "")); [repeat split|].
      apply (IH i (setAction arg c) con He).
    + destruct (parseValueArgs (rangeOrder sys i) arg c) as [c1|] eqn:Hp.
      * destruct (parseValueArgs_keeps _ _ _ _ Hp) as [Ho He1].
        rewrite <- Ho, <- He1. apply IH. now rewrite He1.
      * unfold printErr.
        destruct (ErrorOutput c) eqn:Hec; [|now elim He].
        cbn [fst snd]. rewrite Hec. repeat split.
Qed.

Lemma copyOut_safe (w : Writer) (h : history) :
  forall (i : nat) (con : Console),
    match fst (copyOut ctx (Some w) h i con) with
    | copyPanics => False
    | _ => True
    end.
Proof.
  induction h as [|ev h IH]; intros i con; cbn [copyOut];
    destruct (ctx i) as [[e0 k0]|]; cbn [fst]; auto.
  destruct ev as [p| |v]; cbn [fst]; auto; [|apply IH].
  destruct (nonEmpty p); [|apply IH].
  destruct (writePieces w _ con) as [[e|] con1]; cbn [fst]; auto.
  apply IH.
Qed.

Lemma readConfig_keeps (c : Cli) :
  Output (snd (readConfig quoteNonASCII sys c)) = Output c
  /\ action (snd (readConfig quoteNonASCII sys c)) = action c.
Proof.
  unfold readConfig.
  destruct (ReadFile sys (configPath c)) as [p| |e]; [| |now split];
    (destruct (Unmarshal sys _); [|now split]);
    destruct (String.eqb (cliFormat c) ""); now split.
Qed.

Lemma runAction_safe (c : Cli) (con : Console) :
  Output c <> None ->
  isAction (action c) = true ->
  isPanicked
    (fst (fst (runAction gzipNewWriter gzipNewReader quoteNonASCII sys ctx c con)))
  = false.
Proof.
  intros Ho Hact. unfold runAction.
  destruct (readConfig_keeps c) as [Ho1 Ha1].
  destruct (readConfig quoteNonASCII sys c) as [[e|] c1]; [reflexivity|].
  cbn [snd] in Ho1, Ha1. rewrite <- Ho1 in Ho. rewrite <- Ha1 in Hact.
  destruct (selectUserInput quoteNonASCII sys c1 (Input c1)) as [input|e];
    [|reflexivity].
  destruct (NewClient _ _ _ _) as [cl|e] eqn:Hcl; [|reflexivity].
  apply NewClient_fields in Hcl as (w & d & ->).
  destruct (Output c1) as [out|]; [|now elim Ho].
  assert (Hcopy : forall h,
    isPanicked (fst (fst
      match copyOut ctx (Some out) h 0 con with
      | (copyFailed err, con1) =>
          (Returned (Some (Errorf_w "copying action output: " err)), c1, con1)
      | (copyWaits, con1) => (Waits, c1, con1)
      | (copyPanics, con1) => (Panicked, c1, con1)
      | (copyDone, con1) =>
          match chanRecv h with
          | None => (Waits, c1, con1)
          | Some (Some err) =>
              (Returned (Some (Errorf_w "running action: " err)), c1, con1)
          | Some None => (Returned None, c1, con1)
          end
      end)) = false).
  { intros h. pose proof (copyOut_safe out h 0 con) as Hs.
    destruct (copyOut ctx (Some out) h 0 con) as [[|e| |] con1]; cbn [fst] in *;
      try reflexivity; [|contradiction].
    destruct (chanRecv h) as [[e|]|]; reflexivity. }
  unfold isAction in Hact.
  destruct (String.eqb (action c1) ActionCompress).
  - unfold Compress. cbn [compressor].
    destruct (settle (Returns _)); [apply Hcopy | reflexivity].
  - cbn [orb] in Hact. rewrite Hact.
    unfold Decompress. cbn [decompressor].
    destruct (d input) as [rc|e].
    + destruct (settle (Returns _)); [apply Hcopy | reflexivity].
    + cbn [chanSend chanBuf List.length errChCap Nat.ltb Nat.leb].
      destruct (settle (Returns _)); [apply Hcopy | reflexivity].
Qed.

(** X25: A run never panics: whatever the receiver, its private fields
    included, the system and the context, [Run] returns or waits. *)
Theorem Run_never_panics (c : Cli) (con : Console) :
  isPanicked
    (fst (fst (Run gzipNewWriter gzipNewReader quoteNonASCII sys ctx c con)))
  = false.
Proof.
  unfold Run.
  destruct (Cli_validate c) eqn:Hval; [reflexivity|].
  unfold Cli_validate in Hval.
  destruct (Output c) as [out|] eqn:Ho; [|discriminate].
  destruct (ErrorOutput c) as [err|] eqn:He; [|discriminate].
  destruct (Args c) as [|prog rest] eqn:Hargs; [discriminate|].
  unfold parseArgs. cbn [Args setConfigPath setFormat]. rewrite Hargs.
  match goal with
  | |- context [parseLoop _ _ ?a 0 rest ?c0 con] =>
      assert (He0 : ErrorOutput c0 <> None)
        by (cbn [ErrorOutput setConfigPath setFormat]; rewrite He; discriminate);
      destruct (parseLoop_safe a rest 0 c0 con He0) as (Hsafe & Hout & Herr);
      cbn [Output ErrorOutput setConfigPath setFormat] in Hout, Herr;
      destruct (parseLoop quoteNonASCII sys a 0 rest c0 con) as [[r c1] con1]
  end.
  cbn [fst snd] in Hsafe, Hout, Herr.
  destruct r as [[e|]| |]; try reflexivity; [|discriminate].
  destruct (String.eqb (action c1) "help").
  - unfold printOut. rewrite Hout, Ho. reflexivity.
  - destruct (String.eqb (action c1) ActionCompress
              || String.eqb (action c1) ActionDecompress) eqn:Hact.
    + apply runAction_safe; [rewrite Hout, Ho; discriminate | exact Hact].
    + unfold printErr. rewrite Herr, He. reflexivity.
Qed.

Lemma first_action (args : list string) :
  forall seen,
    okArgs seen args = true ->
    existsb isAction args = true ->
    exists vs act rest,
      args = vs ++ act :: rest
      /\ forallb isValueArg vs = true /\ isAction act = true.
Proof.
  induction args as [|arg args IH]; intros seen Hok Hex; [discriminate|].
  cbn [okArgs] in Hok. destruct (isValueArg arg) eqn:Hv.
  - destruct (isValueArg_not_special arg Hv) as (_ & Hc & Hd).
    cbn [existsb] in Hex. unfold isAction at 1 in Hex. rewrite Hc, Hd in Hex.
    destruct (IH seen Hok Hex) as (vs & act & rest & -> & Hvs & Hact).
    exists (arg :: vs), act, rest. cbn [forallb app]. now rewrite Hv, Hvs.
  - destruct (isAction arg) eqn:Hact; [|discriminate].
    exists [], arg, args. now repeat split.
Qed.

Lemma readConfig_keeps_streams (c : Cli) :
  Args (snd (readConfig quoteNonASCII sys c)) = Args c
  /\ ErrorOutput (snd (readConfig quoteNonASCII sys c)) = ErrorOutput c.
Proof.
  unfold readConfig.
  destruct (ReadFile sys (configPath c)) as [p| |e]; [| |now split];
    (destruct (Unmarshal sys _); [|now split]);
    destruct (String.eqb (cliFormat c) ""); now split.
Qed.

(** X26: A [Cli] runs an action once.  [Run] keeps the action it has parsed in
    its receiver, so a second [Run] of the same value, in whatever system
    and context, stops at the action among its arguments with the error
    "action already specified" and prints nothing. *)
Theorem second_run_is_refused (sys2 : System) (ctx2 : Context) (prog : string)
    (args : list string) (out err : Writer) (input : option reader) (con : Console) :
  okArgs false args = true ->
  existsb isAction args = true ->
  exists c2,
    Run gzipNewWriter gzipNewReader quoteNonASCII sys2 ctx2
      (snd (fst (Run gzipNewWriter gzipNewReader quoteNonASCII sys ctx
                   (newCli (prog :: args) (Some out) (Some err) input) con)))
      (snd (Run gzipNewWriter gzipNewReader quoteNonASCII sys ctx
              (newCli (prog :: args) (Some out) (Some err) input) con))
    = (Returned (Some (Errorf_w "parsing arguments: "
                         (errorString "action already specified"))),
       c2,
       snd (Run gzipNewWriter gzipNewReader quoteNonASCII sys ctx
              (newCli (prog :: args) (Some out) (Some err) input) con)).
Proof.
  intros Hok Hex.
  destruct (first_action args false Hok Hex) as (vs & act & rest & Hargs & Hvs & Hact).
  (* the first run *)
  assert (Hfirst : exists c1,
    snd (fst (Run gzipNewWriter gzipNewReader quoteNonASCII sys ctx
                (newCli (prog :: args) (Some out) (Some err) input) con)) = c1
    /\ Args c1 = prog :: args /\ Output c1 = Some out /\ ErrorOutput c1 = Some err
    /\ isAction (action c1) = true).
  { unfold Run, parseArgs.
    cbn [Cli_validate newCli Output ErrorOutput Args setConfigPath setFormat].
    match goal with
    | |- context [parseLoop _ _ ?a 0 _ ?c con] =>
        destruct (parseLoop_ok a args 0 c con Hok)
          as (c1 & j & Hloop & HA & HO & HE & _ & _ & _ & Hisact);
        specialize (Hloop []); rewrite app_nil_r in Hloop; rewrite Hloop
    end.
    cbn [parseLoop]. specialize (Hisact Hex).
    rewrite (isAction_not_helpword _ Hisact).
    pose proof Hisact as Hisact'. unfold isAction in Hisact'. rewrite Hisact'.
    rewrite runAction_receiver.
    destruct (readConfig_keeps c1) as [Ho1 Ha1].
    destruct (readConfig_keeps_streams c1) as [HA1 HE1].
    eexists. split; [reflexivity|].
    rewrite HA1, Ho1, HE1, Ha1, HA, HO, HE. now repeat split. }
  destruct Hfirst as (c1 & -> & HA & HO & HE & Hisact).
  (* the second run *)
  unfold Run at 1. unfold Cli_validate. rewrite HO, HE, HA.
  unfold parseArgs. cbn [Args setConfigPath setFormat]. rewrite HA, Hargs.
  match goal with
  | |- context [parseLoop _ _ ?a 0 _ ?c ?k] =>
      destruct (parseLoop_values quoteNonASCII sys2 a vs Hvs 0 c k)
        as (c3 & Hloop & Ha3 & _); rewrite Hloop
  end.
  cbn [parseLoop]. rewrite (isAction_not_help act Hact).
  unfold isAction in Hact. rewrite Hact.
  rewrite Ha3. cbn [action setConfigPath setFormat].
  assert (Hne : negb (String.eqb (action c1) "") = true).
  { unfold isAction in Hisact. apply orb_prop in Hisact as [H|H];
      apply String.eqb_eq in H; rewrite H; reflexivity. }
  rewrite Hne. eexists. reflexivity.
Qed.

Lemma copyOut_left_open (l : list bytes) (v : option error) :
  forall (i : nat) (con : Console),
    exists pieces,
      copyOut Background (Some accepting) (map Wrote l ++ [Sent v]) i con
      = (copyWaits,
         {| outCalls := outCalls con + List.length pieces;
            outLog := outLog con ++ map Raw pieces;
            errCalls := errCalls con; errLog := errLog con |})
      /\ List.concat pieces = List.concat l.
Proof. now apply copyOut_accepting_until. Qed.

(** X27: With the format "noop" and a context that is never cancelled, an input
    whose read fails leaves the run waiting: the writes on [Output] carry
    the bytes read before the failure, the error is never returned and
    nothing is printed. *)
Theorem Run_waits_on_failing_input (prog act : string) (cfg : FileConfig)
    (err : Writer) (r : reader) (e : error) :
  isAction act = true ->
  ReadFile sys DefaultConfigPath = fileNotExist ->
  Unmarshal sys [] = Ok cfg ->
  endOf r = Some e ->
  exists c1 pieces,
    Run gzipNewWriter gzipNewReader quoteNonASCII sys Background
      (newCli [prog; act; "--format=noop"] (Some accepting) (Some err) (Some r))
      emptyConsole
    = (Waits, c1,
       {| outCalls := List.length pieces; outLog := map Raw pieces;
          errCalls := 0; errLog := [] |})
    /\ List.concat pieces = List.concat (chunksOf r).
Proof.
  intros Hact Hread Hdec Hend.
  pose proof (isAction_not_help act Hact) as Hnh.
  pose proof (isAction_not_helpword act Hact) as Hnw.
  pose proof Hact as Hact'. unfold isAction in Hact'.
  unfold Run, parseArgs.
  cbn [Cli_validate newCli Output ErrorOutput Args setConfigPath setFormat
       parseLoop action].
  rewrite Hnh, Hact'. rewrite (String.eqb_refl ""). cbn [negb].
  match goal with
  | |- context [parseValueArgs ?o _ ?c] =>
      destruct (parse_format_flag "noop" o c eq_refl) as [Hva Hpf]
  end.
  cbn [append] in Hva, Hpf.
  destruct (isValueArg_not_special _ Hva) as (Hh & Hc & Hd).
  rewrite ?Hh, ?Hc, ?Hd. cbn [orb]. rewrite Hpf.
  cbn [setFormat setAction action]. rewrite Hnw, Hact'.
  unfold runAction, readConfig.
  cbn [configPath cliFormat setAction setConfigPath setFormat newCli].
  rewrite Hread, Hdec. change (String.eqb "noop" "") with false.
  unfold selectUserInput.
  cbn [inputPath Input cliFormat setAction setConfigPath setFormat newCli].
  rewrite (String.eqb_refl "").
  change (NewClient gzipNewWriter gzipNewReader quoteNonASCII [onlyFormat "noop"])
    with (NewClient gzipNewWriter gzipNewReader quoteNonASCII [onlyFormat FormatNoop]).
  rewrite NewClient_noop. cbn [action Output setAction setFormat setConfigPath newCli].
  destruct (String.eqb act ActionCompress).
  - destruct (Compress_noop_history r) as (s & -> & ->). rewrite Hend.
    match goal with
    | |- context [copyOut _ _ (map Wrote ?l ++ [Sent ?v]) ?i ?k] =>
        destruct (copyOut_left_open l v i k) as (pieces & -> & Hcat)
    end.
    eexists _, pieces. split; [reflexivity|].
    now rewrite Hcat, concat_filter_nonEmpty.
  - cbn [orb] in Hact'. rewrite Hact'.
    destruct (Decompress_noop_history r) as (s & -> & ->). rewrite Hend.
    match goal with
    | |- context [copyOut _ _ (map Wrote ?l ++ [Sent ?v]) ?i ?k] =>
        destruct (copyOut_left_open l v i k) as (pieces & -> & Hcat)
    end.
    eexists _, pieces. split; [reflexivity|].
    now rewrite Hcat, concat_filter_nonEmpty.
Qed.




End Running.

(** ** cli/compressor: instances *)

Lemma help_wins_after_action :
  okArgs false ["compress"; "--format=noop"] = true
  /\ exists c1,
      Run sameWriter rejectingReader noNonASCII
        {| Getenv := fun _ => ""; ReadFile := fun _ => fileError (errorString "denied");
           Open := fun _ => Err (errorString "denied"); Args0 := "compressor";
           Unmarshal := fun _ => Err (errorString "bad"); rangeOrder := fun _ => FCI |}
        Background
        (newCli ("compressor" :: ["compress"; "--format=noop"] ++ "--help" :: ["bogus"])
           (Some accepting) (Some accepting) None)
        emptyConsole
      = (Returned None, c1,
         snd (writeOut accepting (Line (usage "compressor")) emptyConsole)).
Proof.
  split; [reflexivity|].
  exact (help_wins sameWriter rejectingReader noNonASCII _ Background "compressor" ["compress"; "--format=noop"] ["bogus"]
           accepting accepting None emptyConsole eq_refl).
Defined.

Lemma no_action_is_an_error_flags_only :
  forallb isValueArg ["--format=noop"; "--input=x"] = true
  /\ exists c1,
      Run sameWriter rejectingReader noNonASCII
        {| Getenv := fun _ => ""; ReadFile := fun _ => fileNotExist;
           Open := fun _ => Err (errorString "denied"); Args0 := "compressor";
           Unmarshal := fun _ => Ok {| fileFormat := "" |}; rangeOrder := fun _ => FCI |}
        Background
        (newCli ("compressor" :: ["--format=noop"; "--input=x"])
           (Some accepting) (Some accepting) None)
        emptyConsole
      = (Returned (Some (errorString "no action specified")), c1,
         snd (writeErr accepting (Line (usage "compressor")) emptyConsole)).
Proof.
  split; [reflexivity|].
  exact (no_action_is_an_error sameWriter rejectingReader noNonASCII _ Background "compressor" ["--format=noop"; "--input=x"]
           accepting accepting None emptyConsole eq_refl).
Defined.

(** A system without files and without the environment variable. *)
Lemma unknown_argument_is_an_error_bogus :
  okArgs false ["compress"] = true
  /\ isValueArg "--bogus" = false /\ isAction "--bogus" = false
  /\ String.eqb "--bogus" "--help" = false
  /\ exists c1,
      Run sameWriter rejectingReader noNonASCII
        {| Getenv := fun _ => ""; ReadFile := fun _ => fileNotExist;
           Open := fun _ => Err (errorString "denied"); Args0 := "compressor";
           Unmarshal := fun _ => Ok {| fileFormat := "" |}; rangeOrder := fun _ => FCI |}
        Background
        (newCli ("compressor" :: ["compress"] ++ "--bogus" :: ["--help"])
           (Some accepting) (Some accepting) None)
        emptyConsole
      = (Returned (Some (Errorf_w "parsing arguments: "
           (errorString ("unknown argument " ++ quote noNonASCII "--bogus" ++ ": "
                           ++ fmtStrings ("compressor" :: ["compress"]
                                            ++ "--bogus" :: ["--help"]))))),
         c1, snd (writeErr accepting (Line (usage "compressor")) emptyConsole)).
Proof.
  repeat (split; [reflexivity|]).
  exact (unknown_argument_is_an_error sameWriter rejectingReader noNonASCII _
           Background "compressor" "--bogus" ["compress"] ["--help"]
           accepting accepting None emptyConsole eq_refl eq_refl eq_refl eq_refl).
Defined.

Lemma second_action_is_an_error_both :
  okArgs false ["decompress"] = true
  /\ existsb isAction ["decompress"] = true
  /\ isAction "compress" = true
  /\ exists c1,
      Run sameWriter rejectingReader noNonASCII
        {| Getenv := fun _ => ""; ReadFile := fun _ => fileNotExist;
           Open := fun _ => Err (errorString "denied"); Args0 := "compressor";
           Unmarshal := fun _ => Ok {| fileFormat := "" |}; rangeOrder := fun _ => FCI |}
        Background
        (newCli ("compressor" :: ["decompress"] ++ "compress" :: [])
           (Some accepting) (Some accepting) None)
        emptyConsole
      = (Returned (Some (Errorf_w "parsing arguments: "
                           (errorString "action already specified"))),
         c1, emptyConsole).
Proof.
  repeat (split; [reflexivity|]).
  exact (second_action_is_an_error sameWriter rejectingReader noNonASCII _
           Background "compressor" "compress" ["decompress"] []
           accepting accepting None emptyConsole eq_refl eq_refl eq_refl).
Defined.



Lemma unreadable_config_fails_the_run_denied :
  isAction "compress" = true
  /\ without "="%char "noop" = true
  /\ exists c1 e1,
      Run sameWriter rejectingReader noNonASCII
        {| Getenv := fun _ => ""; ReadFile := fun _ => fileError (errorString "permission denied");
           Open := fun _ => Err (errorString "denied"); Args0 := "compressor";
           Unmarshal := fun _ => Ok {| fileFormat := "" |}; rangeOrder := fun _ => FCI |}
        Background
        (newCli ["compressor"; "compress"; ("--format=" ++ "noop")%string]
           (Some accepting) (Some accepting) (Some (readerOf [testData])))
        emptyConsole
      = (Returned (Some e1), c1, emptyConsole)
      /\ Is e1 (errorString "permission denied") = true.
Proof.
  repeat (split; [reflexivity|]).
  exact (unreadable_config_fails_the_run sameWriter rejectingReader noNonASCII
           {| Getenv := fun _ => ""; ReadFile := fun _ => fileError (errorString "permission denied");
              Open := fun _ => Err (errorString "denied"); Args0 := "compressor";
              Unmarshal := fun _ => Ok {| fileFormat := "" |}; rangeOrder := fun _ => FCI |}
           Background "compressor" "compress" "noop" (errorString "permission denied")
           accepting accepting (Some (readerOf [testData])) emptyConsole
           eq_refl eq_refl eq_refl).
Defined.

Lemma Run_noop_copies_stdin_foo :
  isAction "compress" = true
  /\ exists c1 pieces,
      Run sameWriter rejectingReader noNonASCII
        {| Getenv := fun _ => ""; ReadFile := fun _ => fileNotExist;
           Open := fun _ => Err (errorString "denied"); Args0 := "compressor";
           Unmarshal := fun _ => Ok {| fileFormat := "" |}; rangeOrder := fun _ => ICF |}
        Background
        (newCli ["compressor"; "compress"; "--format=noop"] (Some accepting)
           (Some accepting) (Some (readerOf [testData])))
        emptyConsole
      = (Returned None, c1,
         {| outCalls := List.length pieces; outLog := map Raw pieces;
            errCalls := 0; errLog := [] |})
      /\ List.concat pieces = List.concat [testData].
Proof.
  split; [reflexivity|].
  exact (Run_noop_copies_stdin sameWriter rejectingReader noNonASCII
           {| Getenv := fun _ => ""; ReadFile := fun _ => fileNotExist;
              Open := fun _ => Err (errorString "denied"); Args0 := "compressor";
              Unmarshal := fun _ => Ok {| fileFormat := "" |};
              rangeOrder := fun _ => ICF |}
           "compressor" "compress" {| fileFormat := "" |} accepting [testData]
           eq_refl eq_refl eq_refl).
Defined.

Lemma input_file_replaces_stdin_foo :
  isAction "decompress" = true
  /\ without "="%char "data" = true
  /\ "data" <> ""
  /\ exists c1 pieces,
      Run sameWriter rejectingReader noNonASCII
        {| Getenv := fun _ => ""; ReadFile := fun _ => fileNotExist;
           Open := fun _ => Ok (readerOf [testData]); Args0 := "compressor";
           Unmarshal := fun _ => Ok {| fileFormat := "" |}; rangeOrder := fun _ => ICF |}
        Background
        (newCli ["compressor"; "decompress"; "--format=noop"; ("--input=" ++ "data")%string]
           (Some accepting) (Some accepting) (Some badReader))
        emptyConsole
      = (Returned None, c1,
         {| outCalls := List.length pieces; outLog := map Raw pieces;
            errCalls := 0; errLog := [] |})
      /\ List.concat pieces = List.concat [testData].
Proof.
  split; [reflexivity|]. split; [reflexivity|]. split; [discriminate|].
  assert (Hne : "data" <> "") by discriminate.
  exact (input_file_replaces_stdin sameWriter rejectingReader noNonASCII
           {| Getenv := fun _ => ""; ReadFile := fun _ => fileNotExist;
              Open := fun _ => Ok (readerOf [testData]); Args0 := "compressor";
              Unmarshal := fun _ => Ok {| fileFormat := "" |};
              rangeOrder := fun _ => ICF |}
           "compressor" "decompress" "data" {| fileFormat := "" |} accepting
           (Some badReader) [testData] eq_refl eq_refl Hne eq_refl eq_refl eq_refl).
Defined.


Lemma second_run_is_refused_compress :
  okArgs false ["compress"; "--format=noop"] = true
  /\ existsb isAction ["compress"; "--format=noop"] = true
  /\ exists c2,
      Run sameWriter rejectingReader noNonASCII
        {| Getenv := fun _ => ""; ReadFile := fun _ => fileNotExist;
           Open := fun _ => Err (errorString "denied"); Args0 := "compressor";
           Unmarshal := fun _ => Ok {| fileFormat := "" |}; rangeOrder := fun _ => ICF |}
        Background
        (snd (fst (Run sameWriter rejectingReader noNonASCII
           {| Getenv := fun _ => ""; ReadFile := fun _ => fileNotExist;
              Open := fun _ => Err (errorString "denied"); Args0 := "compressor";
              Unmarshal := fun _ => Ok {| fileFormat := "" |};
              rangeOrder := fun _ => ICF |}
           Background
           (newCli ("compressor" :: ["compress"; "--format=noop"]) (Some accepting)
              (Some accepting) (Some (readerOf [testData])))
           emptyConsole)))
        (snd (Run sameWriter rejectingReader noNonASCII
           {| Getenv := fun _ => ""; ReadFile := fun _ => fileNotExist;
              Open := fun _ => Err (errorString "denied"); Args0 := "compressor";
              Unmarshal := fun _ => Ok {| fileFormat := "" |};
              rangeOrder := fun _ => ICF |}
           Background
           (newCli ("compressor" :: ["compress"; "--format=noop"]) (Some accepting)
              (Some accepting) (Some (readerOf [testData])))
           emptyConsole))
      = (Returned (Some (Errorf_w "parsing arguments: "
                           (errorString "action already specified"))),
         c2,
         {| outCalls := 1; outLog := [Raw testData]; errCalls := 0; errLog := [] |}).
Proof.
  split; [reflexivity|]. split; [reflexivity|].
  exact (second_run_is_refused sameWriter rejectingReader noNonASCII
           {| Getenv := fun _ => ""; ReadFile := fun _ => fileNotExist;
              Open := fun _ => Err (errorString "denied"); Args0 := "compressor";
              Unmarshal := fun _ => Ok {| fileFormat := "" |};
              rangeOrder := fun _ => ICF |}
           Background
           {| Getenv := fun _ => ""; ReadFile := fun _ => fileNotExist;
              Open := fun _ => Err (errorString "denied"); Args0 := "compressor";
              Unmarshal := fun _ => Ok {| fileFormat := "" |};
              rangeOrder := fun _ => ICF |}
           Background "compressor" ["compress"; "--format=noop"]
           accepting accepting (Some (readerOf [testData])) emptyConsole
           eq_refl eq_refl).
Defined.

Lemma Run_waits_on_failing_input_badReader :
  isAction "compress" = true
  /\ endOf badReader = Some (errorString "reading error")
  /\ exists c1 pieces,
      Run sameWriter rejectingReader noNonASCII
        {| Getenv := fun _ => ""; ReadFile := fun _ => fileNotExist;
           Open := fun _ => Err (errorString "denied"); Args0 := "compressor";
           Unmarshal := fun _ => Ok {| fileFormat := "" |}; rangeOrder := fun _ => ICF |}
        Background
        (newCli ["compressor"; "compress"; "--format=noop"] (Some accepting)
           (Some accepting) (Some badReader))
        emptyConsole
      = (Waits, c1,
         {| outCalls := List.length pieces; outLog := map Raw pieces;
            errCalls := 0; errLog := [] |})
      /\ List.concat pieces = List.concat (chunksOf badReader).
Proof.
  split; [reflexivity|]. split; [reflexivity|].
  exact (Run_waits_on_failing_input sameWriter rejectingReader noNonASCII
           {| Getenv := fun _ => ""; ReadFile := fun _ => fileNotExist;
              Open := fun _ => Err (errorString "denied"); Args0 := "compressor";
              Unmarshal := fun _ => Ok {| fileFormat := "" |};
              rangeOrder := fun _ => ICF |}
           "compressor" "compress" {| fileFormat := "" |} accepting badReader
           (errorString "reading error") eq_refl eq_refl eq_refl eq_refl).
Defined.


(** ** cli/compressor: the usage *)

(** X28: Whatever the name of the program, the usage names every format of
    [AvailableFormats], the default configuration path and the program. *)
Theorem usage_names_formats (args0 : string) :
  forallb (Contains (usage args0)) AvailableFormats = true
  /\ Contains (usage args0) DefaultConfigPath = true
  /\ Contains (usage args0) args0 = true.
Proof.
  unfold usage. repeat split.
  - cbn [forallb AvailableFormats]. rewrite andb_true_r. apply andb_true_intro. split;
      do 4 apply Contains_append; vm_compute; reflexivity.
  - do 4 apply Contains_append. vm_compute. reflexivity.
  - apply Contains_append, Contains_prefix, prefix_app.
Qed.

(** ** internal/testutil *)

(** X29: With a test deadline, the context [ContextWithDeadline] returns has a
    deadline that is a whole multiple of the grace period, is never later
    than the test's and less than one grace period earlier: it is the
    test's own deadline exactly when that is such a multiple.  The cancel
    function given to [Cleanup] is the one of the context returned, and
    [Helper] has been called. *)
Theorem ContextWithDeadline_deadline (d : Z) :
  exists d',
    contextDeadline (returned (ContextWithDeadline (Some d))) = Some d'
    /\ (d' <= d)%Z
    /\ (d - timeoutGracePeriod < d')%Z
    /\ (d' mod timeoutGracePeriod = 0)%Z
    /\ Z.eqb d' d = Z.eqb (d mod timeoutGracePeriod) 0
    /\ cleanups (ContextWithDeadline (Some d)) = [returned (ContextWithDeadline (Some d))]
    /\ helperCalled (ContextWithDeadline (Some d)) = true.
Proof.
  exists (d - d mod timeoutGracePeriod)%Z.
  assert (Hg : (0 < timeoutGracePeriod)%Z) by reflexivity.
  pose proof (Z.mod_pos_bound d timeoutGracePeriod Hg) as Hb.
  repeat split.
  - lia.
  - lia.
  - rewrite Zminus_mod_idemp_r, Z.sub_diag. reflexivity.
  - destruct (Z.eqb_spec (d mod timeoutGracePeriod) 0) as [H0|H0].
    + apply Z.eqb_eq. lia.
    + apply Z.eqb_neq. lia.
Qed.

(** Without a test deadline the context has none either. *)
Lemma ContextWithDeadline_none :
  contextDeadline (returned (ContextWithDeadline None)) = None
  /\ cleanups (ContextWithDeadline None) = [returned (ContextWithDeadline None)].
Proof. split; reflexivity. Qed.
